(** * noatboat: the hand-rolled ZIP/EPUB container writer of [main.js]

    A shallow embedding of [crc32], [getCrc32Table] and [createZipBuffer]
    (src/main.js, lines 1771-1888) together with the parts of the JavaScript
    and Node.js platform they rely on: 32-bit integer operators, the
    [Buffer] write methods with their range checks, UTF-8 encoding of
    strings and [zlib.deflateRawSync] (taken as a parameter). *)

From Stdlib Require Import ZArith List Bool Lia.
From Stdlib Require Ascii String.
Import ListNotations.
Import String.StringSyntax Ascii.AsciiSyntax.
Delimit Scope string_scope with string.
Delimit Scope char_scope with char.
Local Open Scope Z_scope.

(** * Part I: the program *)

(** ** JavaScript numbers restricted to the integers the code manipulates *)

Module JS.

(** ECMAScript [ToUint32]: the value modulo 2^32. *)
Definition ToUint32 (x : Z) : Z := x mod 2 ^ 32.

(** ECMAScript [ToInt32]: the value modulo 2^32, read as two's complement. *)
Definition ToInt32 (x : Z) : Z :=
  let u := x mod 2 ^ 32 in
  if u <? 2 ^ 31 then u else u - 2 ^ 32.

(** [a ^ b] *)
Definition xor (a b : Z) : Z := Z.lxor (ToInt32 a) (ToInt32 b).

(** [a & b] *)
Definition and (a b : Z) : Z := Z.land (ToInt32 a) (ToInt32 b).

(** [a >>> n] *)
Definition ushr (a n : Z) : Z := Z.shiftr (ToUint32 a) (ToUint32 n mod 32).

(** Truthiness of a number: every number but zero. *)
Definition truthy (x : Z) : bool := negb (x =? 0).

End JS.

(** ** Buffers and typed arrays *)

(** A [Buffer] is a sequence of octets, each a number in [0, 255]. *)
Definition Buffer := list Z.

(** [a.length] *)
Definition len {A} (a : list A) : Z := Z.of_nat (length a).

(** [a[i]] on a typed array; an index outside the array reads [undefined],
    which every integer operator of the code turns into 0. *)
Definition get (a : list Z) (i : Z) : Z :=
  if i <? 0 then 0 else nth (Z.to_nat i) a 0.

(** Overwrites the elements of [buf] from index [off] on with [bs];
    the caller has checked that they fit. *)
Definition blit (bs : list Z) (off : nat) (buf : list Z) : list Z :=
  firstn off buf ++ bs ++ skipn (off + length bs) buf.

(** [a[i] = v] on a [Uint32Array]: the stored element is [ToUint32 v];
    a write outside the array is ignored. *)
Definition set32 (a : list Z) (i : Z) (v : Z) : list Z :=
  if (0 <=? i) && (i <? len a) then blit [JS.ToUint32 v] (Z.to_nat i) a else a.

(** ** The CRC-32 table and its process-wide cache *)

(** The module-level variable [crc32Table]: [null] or a [Uint32Array]. *)
Definition Cache := option (list Z).

(** The inner loop of [getCrc32Table]:
    [c = (c & 1) ? (0xEDB88320 ^ (c >>> 1)) : (c >>> 1)]. *)
Definition crc32Table_step (c : Z) : Z :=
  if JS.truthy (JS.and c 1) then JS.xor 0xEDB88320 (JS.ushr c 1) else JS.ushr c 1.

(** The body of the outer loop: [c = i], eight steps, [crc32Table[i] = c]. *)
Definition crc32Table_fill (table : list Z) (i : nat) : list Z :=
  let c := Z.of_nat i in
  let c := Nat.iter 8 crc32Table_step c in
  set32 table (Z.of_nat i) c.

(** [new Uint32Array(256)] filled by the loop [for (i = 0; i < 256; i++)]. *)
Definition crc32Table_build : list Z :=
  fold_left crc32Table_fill (seq 0 256) (repeat 0 256).

(** [getCrc32Table()]: the cached table when there is one, otherwise the
    table is built and stored in the cache. *)
Definition getCrc32Table (st : Cache) : list Z * Cache :=
  match st with
  | Some table => (table, st)
  | None => let table := crc32Table_build in (table, Some table)
  end.

(** The loop body of [crc32]:
    [crc = (crc >>> 8) ^ table[(crc ^ buffer[i]) & 0xFF]]. *)
Definition crc32_step (table : list Z) (crc byte : Z) : Z :=
  JS.xor (JS.ushr crc 8) (get table (JS.and (JS.xor crc byte) 0xFF)).

(** [crc32(buffer)] *)
Definition crc32 (buffer : Buffer) (st : Cache) : Z * Cache :=
  let crc := 0xFFFFFFFF in
  let (table, st) := getCrc32Table st in
  let crc := fold_left (crc32_step table) buffer crc in
  (JS.ushr (JS.xor crc 0xFFFFFFFF) 0, st).

(** The states the cache can be in: [crc32Table] starts as [null] and
    [getCrc32Table] is its only writer. *)
Definition cache_ok (st : Cache) : Prop :=
  st = None \/ st = Some crc32Table_build.

(** ** Exceptions, and the monad of computations over the cache that may throw *)

(** What the platform calls of [createZipBuffer] can throw:
    - [ValueOutOfRange]: Node's [ERR_OUT_OF_RANGE] for the "value" argument
      of a [writeUInt16LE] / [writeUInt32LE];
    - [OffsetOutOfRange]: Node's range error for an "offset" argument that
      leaves no room for the field;
    - [DeflateFailure]: whatever [zlib.deflateRawSync] throws. *)
Inductive Exn : Set :=
  | ValueOutOfRange
  | OffsetOutOfRange
  | DeflateFailure.

Inductive Result (A : Type) : Type :=
  | Ok (a : A)
  | Throw (e : Exn).
Arguments Ok {A} a.
Arguments Throw {A} e.

Definition M (A : Type) : Type := Cache -> Result A * Cache.

Definition ret {A} (a : A) : M A := fun st => (Ok a, st).

Definition bind {A B} (m : M A) (k : A -> M B) : M B :=
  fun st =>
    match m st with
    | (Ok a, st') => k a st'
    | (Throw e, st') => (Throw e, st')
    end.

(** A platform call that does not touch the cache. *)
Definition lift {A} (r : Result A) : M A := fun st => (r, st).

(** A call of a function of this file that reads or fills the cache. *)
Definition call {A} (f : Cache -> A * Cache) : M A :=
  fun st => let (a, st') := f st in (Ok a, st').

Declare Scope zip_scope.
Delimit Scope zip_scope with zip.
Notation "x <- m ;; k" := (bind m (fun x => k))
  (at level 61, m at next level, right associativity) : zip_scope.
Notation "' p <- m ;; k" := (bind m (fun x => let p := x in k))
  (at level 61, p pattern, m at next level, right associativity) : zip_scope.

(** [for (const x of l) { s = body(s, x) }] *)
Fixpoint forOf {A S} (body : S -> A -> M S) (l : list A) (s : S) : M S :=
  match l with
  | [] => ret s
  | x :: l' => bind (body s x) (forOf body l')
  end.

(** ** Node's [Buffer] methods *)

(** The [k]-th octet of [value], least significant first. *)
Definition octet (k : Z) (value : Z) : Z := Z.shiftr value (8 * k) mod 256.

Definition le16 (value : Z) : list Z := [octet 0 value; octet 1 value].
Definition le32 (value : Z) : list Z :=
  [octet 0 value; octet 1 value; octet 2 value; octet 3 value].

(** [Buffer.alloc(size)]: [size] zero octets. *)
Definition alloc (size : Z) : Buffer := repeat 0 (Z.to_nat size).

(** The check shared by the write methods: first the value against
    [0 .. max], then the room for [width] octets at [offset]. *)
Definition checkInt (buf : Buffer) (value max offset width : Z) : option Exn :=
  if (value <? 0) || (max <? value) then Some ValueOutOfRange
  else if (offset <? 0) || (len buf <? offset + width) then Some OffsetOutOfRange
  else None.

(** [buf.writeUInt16LE(value, offset)]; the result is the buffer after the write. *)
Definition writeUInt16LE (buf : Buffer) (value offset : Z) : Result Buffer :=
  match checkInt buf value 0xFFFF offset 2 with
  | Some e => Throw e
  | None => Ok (blit (le16 value) (Z.to_nat offset) buf)
  end.

(** [buf.writeUInt32LE(value, offset)] *)
Definition writeUInt32LE (buf : Buffer) (value offset : Z) : Result Buffer :=
  match checkInt buf value 0xFFFFFFFF offset 4 with
  | Some e => Throw e
  | None => Ok (blit (le32 value) (Z.to_nat offset) buf)
  end.

(** [source.copy(target, targetStart)]: as many octets of [source] as
    [target] has room for from [targetStart] on; the result is the target
    after the copy. *)
Definition copy (source target : Buffer) (targetStart : Z) : Result Buffer :=
  if targetStart <? 0 then Throw OffsetOutOfRange
  else if len target <=? targetStart then Ok target
  else
    let start := Z.to_nat targetStart in
    Ok (blit (firstn (length target - start) source) start target).

(** [buf.readUInt16LE(offset)] and [buf.readUInt32LE(offset)] for a field
    that lies within the buffer, used to say what a field of the archive
    holds. *)
Definition readUInt16LE (buf : Buffer) (offset : Z) : Z :=
  get buf offset + 2 ^ 8 * get buf (offset + 1).

Definition readUInt32LE (buf : Buffer) (offset : Z) : Z :=
  get buf offset + 2 ^ 8 * get buf (offset + 1)
  + 2 ^ 16 * get buf (offset + 2) + 2 ^ 24 * get buf (offset + 3).

(** [buf.subarray(start, start + size)] *)
Definition subarray (buf : Buffer) (start size : Z) : Buffer :=
  firstn (Z.to_nat size) (skipn (Z.to_nat start) buf).

(** ** Strings and their UTF-8 encoding *)

(** A JavaScript string is a sequence of UTF-16 code units. *)
Definition JSString := list Z.

(** A string literal of the code, all of whose characters are ASCII. *)
Definition literal (s : String.string) : JSString :=
  map (fun a => Z.of_N (Ascii.N_of_ascii a)) (String.list_ascii_of_string s).

Definition highSurrogate (c : Z) : bool := (0xD800 <=? c) && (c <=? 0xDBFF).
Definition lowSurrogate (c : Z) : bool := (0xDC00 <=? c) && (c <=? 0xDFFF).

Definition utf8_2 (c : Z) : list Z := [0xC0 + c / 64; 0x80 + c mod 64].
Definition utf8_3 (c : Z) : list Z :=
  [0xE0 + c / 4096; 0x80 + (c / 64) mod 64; 0x80 + c mod 64].
Definition utf8_4 (c : Z) : list Z :=
  [0xF0 + c / 262144; 0x80 + (c / 4096) mod 64; 0x80 + (c / 64) mod 64; 0x80 + c mod 64].

(** [Buffer.from(s, 'utf8')]: one to three octets for a code unit outside
    the surrogate range, four for a surrogate pair, and the encoding of
    U+FFFD for a surrogate that has no partner. *)
Fixpoint Buffer_from (s : JSString) : Buffer :=
  match s with
  | [] => []
  | c :: rest =>
    if c <? 0x80 then c :: Buffer_from rest
    else if c <? 0x800 then utf8_2 c ++ Buffer_from rest
    else if highSurrogate c then
      match rest with
      | d :: rest' =>
        if lowSurrogate d
        then utf8_4 (0x10000 + (c - 0xD800) * 1024 + (d - 0xDC00)) ++ Buffer_from rest'
        else utf8_3 0xFFFD ++ Buffer_from rest
      | [] => utf8_3 0xFFFD
      end
    else if lowSurrogate c then utf8_3 0xFFFD ++ Buffer_from rest
    else utf8_3 c ++ Buffer_from rest
  end.

(** ** [createZipBuffer] *)

(** An element of [files]: [{ name, data, compress }], as [addFile] builds it. *)
Record File : Type := mkFile {
  name : JSString;
  data : Buffer;
  compress : bool
}.

(** An element of [localHeaders]: [{ header, data, offset }]. *)
Record LocalHeader : Type := mkLocalHeader {
  lh_header : Buffer;
  lh_data : Buffer;
  lh_offset : Z
}.

Local Open Scope zip_scope.

Section Writer.

(** [zlib.deflateRawSync]: the raw DEFLATE stream of a buffer, or [None]
    when the call throws. *)
Variable deflateRawSync : Buffer -> option Buffer.

Definition deflate (data : Buffer) : Result Buffer :=
  match deflateRawSync data with
  | Some compressed => Ok compressed
  | None => Throw DeflateFailure
  end.

(** The variables the first loop updates: [localHeaders],
    [centralHeaders] and [offset]. *)
Definition LoopState : Type := (list LocalHeader * list Buffer * Z)%type.

(** The body of [for (const file of files)]. *)
Definition createZipBuffer_body (s : LoopState) (file : File) : M LoopState :=
  let '(localHeaders, centralHeaders, offset) := s in
  let nameBuffer := Buffer_from (name file) in
  let data := data file in
  compressed <- lift (if compress file then deflate data else Ok data) ;;
  let useCompression := compress file && (len compressed <? len data) in
  let finalData := if useCompression then compressed else data in
  (* CRC32 *)
  crc <- call (crc32 data) ;;
  (* Local file header *)
  let localHeader := alloc (30 + len nameBuffer) in
  localHeader <- lift (writeUInt32LE localHeader 0x04034b50 0) ;;
  localHeader <- lift (writeUInt16LE localHeader 20 4) ;;
  localHeader <- lift (writeUInt16LE localHeader 0 6) ;;
  localHeader <- lift (writeUInt16LE localHeader (if useCompression then 8 else 0) 8) ;;
  localHeader <- lift (writeUInt16LE localHeader 0 10) ;;
  localHeader <- lift (writeUInt16LE localHeader 0 12) ;;
  localHeader <- lift (writeUInt32LE localHeader crc 14) ;;
  localHeader <- lift (writeUInt32LE localHeader (len finalData) 18) ;;
  localHeader <- lift (writeUInt32LE localHeader (len data) 22) ;;
  localHeader <- lift (writeUInt16LE localHeader (len nameBuffer) 26) ;;
  localHeader <- lift (writeUInt16LE localHeader 0 28) ;;
  localHeader <- lift (copy nameBuffer localHeader 30) ;;
  let localHeaders := localHeaders ++ [mkLocalHeader localHeader finalData offset] in
  (* Central directory header *)
  let centralHeader := alloc (46 + len nameBuffer) in
  centralHeader <- lift (writeUInt32LE centralHeader 0x02014b50 0) ;;
  centralHeader <- lift (writeUInt16LE centralHeader 20 4) ;;
  centralHeader <- lift (writeUInt16LE centralHeader 20 6) ;;
  centralHeader <- lift (writeUInt16LE centralHeader 0 8) ;;
  centralHeader <- lift (writeUInt16LE centralHeader (if useCompression then 8 else 0) 10) ;;
  centralHeader <- lift (writeUInt16LE centralHeader 0 12) ;;
  centralHeader <- lift (writeUInt16LE centralHeader 0 14) ;;
  centralHeader <- lift (writeUInt32LE centralHeader crc 16) ;;
  centralHeader <- lift (writeUInt32LE centralHeader (len finalData) 20) ;;
  centralHeader <- lift (writeUInt32LE centralHeader (len data) 24) ;;
  centralHeader <- lift (writeUInt16LE centralHeader (len nameBuffer) 28) ;;
  centralHeader <- lift (writeUInt16LE centralHeader 0 30) ;;
  centralHeader <- lift (writeUInt16LE centralHeader 0 32) ;;
  centralHeader <- lift (writeUInt16LE centralHeader 0 34) ;;
  centralHeader <- lift (writeUInt16LE centralHeader 0 36) ;;
  centralHeader <- lift (writeUInt32LE centralHeader 0 38) ;;
  centralHeader <- lift (writeUInt32LE centralHeader offset 42) ;;
  centralHeader <- lift (copy nameBuffer centralHeader 46) ;;
  let centralHeaders := centralHeaders ++ [centralHeader] in
  let offset := offset + (len localHeader + len finalData) in
  ret (localHeaders, centralHeaders, offset).

(** [createZipBuffer(files)] *)
Definition createZipBuffer (files : list File) : M Buffer :=
  '(localHeaders, centralHeaders, offset) <-
    forOf createZipBuffer_body files ([], [], 0) ;;
  (* Build final buffer *)
  let centralOffset := offset in
  let centralSize := fold_left (fun centralSize ch => centralSize + len ch) centralHeaders 0 in
  (* End of central directory *)
  let eocd := alloc 22 in
  eocd <- lift (writeUInt32LE eocd 0x06054b50 0) ;;
  eocd <- lift (writeUInt16LE eocd 0 4) ;;
  eocd <- lift (writeUInt16LE eocd 0 6) ;;
  eocd <- lift (writeUInt16LE eocd (len files) 8) ;;
  eocd <- lift (writeUInt16LE eocd (len files) 10) ;;
  eocd <- lift (writeUInt32LE eocd centralSize 12) ;;
  eocd <- lift (writeUInt32LE eocd centralOffset 16) ;;
  eocd <- lift (writeUInt16LE eocd 0 20) ;;
  (* Concatenate all parts *)
  let parts := fold_left (fun parts lh => parts ++ [lh_header lh; lh_data lh]) localHeaders [] in
  let parts := fold_left (fun parts ch => parts ++ [ch]) centralHeaders parts in
  let parts := parts ++ [eocd] in
  ret (concat parts).

End Writer.

(** ** The caller: [addFile] of the [export-epub] handler *)

(** The [content] argument of [addFile]: a string or a [Buffer]. *)
Inductive Content : Type :=
  | Text (s : JSString)
  | Binary (b : Buffer).

(** [addFile(name, content, compress = true)]:
    [data = Buffer.isBuffer(content) ? content : Buffer.from(content, 'utf8')],
    then [files.push({ name, data, compress })]. [None] stands for a call
    without the third argument. *)
Definition addFile (files : list File) (name : JSString) (content : Content)
    (compress : option bool) : list File :=
  let compress := match compress with Some c => c | None => true end in
  let data := match content with Binary b => b | Text s => Buffer_from s end in
  files ++ [mkFile name data compress].

(** The element that [addFile('mimetype', 'application/epub+zip', false)]
    pushes first. *)
Definition mimetype : File :=
  mkFile (literal "mimetype"%string) (literal "application/epub+zip"%string) false.

(** * Part II: reference definitions of the specification, and what the
    loop of [createZipBuffer] computes, without the buffers *)

(** ** The reference CRC-32, as the specification words it *)

Module Ref.

(** One of the eight rounds for a table entry: when the low bit of the
    running value is set, XOR (value >> 1) with 0xEDB88320; otherwise
    just shift right by one. *)
Definition round (v : Z) : Z :=
  if Z.testbit v 0 then Z.lxor (Z.shiftr v 1) 0xEDB88320 else Z.shiftr v 1.

Definition entry (i : Z) : Z := Nat.iter 8 round i.

Definition table : list Z := map (fun i => entry (Z.of_nat i)) (seq 0 256).

(** accumulator = (accumulator >> 8) XOR table[(accumulator XOR byte) & 0xFF] *)
Definition update (acc byte : Z) : Z :=
  Z.lxor (Z.shiftr acc 8) (nth (Z.to_nat (Z.land (Z.lxor acc byte) 0xFF)) table 0).

(** The accumulator starts at 0xFFFFFFFF; the result is the accumulator
    XOR 0xFFFFFFFF as an unsigned 32-bit integer. *)
Definition crc32 (bytes : list Z) : Z :=
  (Z.lxor (fold_left update bytes 0xFFFFFFFF) 0xFFFFFFFF) mod 2 ^ 32.

End Ref.

(** ** The archive layout, as the specification tabulates it *)

Module Layout.

(** Local file header: 30 fixed octets, then the name. *)
Definition localHeader (method crc csize usize : Z) (nameBytes : Buffer) : Buffer :=
  le32 0x04034b50 ++ le16 20 ++ le16 0 ++ le16 method ++ le16 0 ++ le16 0
  ++ le32 crc ++ le32 csize ++ le32 usize ++ le16 (len nameBytes) ++ le16 0
  ++ nameBytes.

(** Central directory header: 46 fixed octets, then the name. *)
Definition centralHeader (method crc csize usize offset : Z) (nameBytes : Buffer) : Buffer :=
  le32 0x02014b50 ++ le16 20 ++ le16 20 ++ le16 0 ++ le16 method ++ le16 0 ++ le16 0
  ++ le32 crc ++ le32 csize ++ le32 usize ++ le16 (len nameBytes) ++ le16 0
  ++ le16 0 ++ le16 0 ++ le16 0 ++ le32 0 ++ le32 offset
  ++ nameBytes.

(** End of central directory record: 22 octets. *)
Definition eocd (count size offset : Z) : Buffer :=
  le32 0x06054b50 ++ le16 0 ++ le16 0 ++ le16 count ++ le16 count
  ++ le32 size ++ le32 offset ++ le16 0.

End Layout.

(** ** What the loop keeps of each file *)

(** A file together with the candidate [compressed] of the loop body. *)
Record Entry : Type := mkEntry {
  e_file : File;
  e_compressed : Buffer
}.

Definition nameBytes (e : Entry) : Buffer := Buffer_from (name (e_file e)).

(** [file.compress && compressed.length < data.length] *)
Definition useCompression (e : Entry) : bool :=
  compress (e_file e) && (len (e_compressed e) <? len (data (e_file e))).

(** [useCompression ? compressed : data] *)
Definition finalData (e : Entry) : Buffer :=
  if useCompression e then e_compressed e else data (e_file e).

(** [useCompression ? 8 : 0] *)
Definition method (e : Entry) : Z := if useCompression e then 8 else 0.

Definition localHeaderOf (e : Entry) : Buffer :=
  Layout.localHeader (method e) (Ref.crc32 (data (e_file e)))
    (len (finalData e)) (len (data (e_file e))) (nameBytes e).

Definition centralHeaderOf (e : Entry) (offset : Z) : Buffer :=
  Layout.centralHeader (method e) (Ref.crc32 (data (e_file e)))
    (len (finalData e)) (len (data (e_file e))) offset (nameBytes e).

(** Octets an entry takes in the first part of the archive: its local
    header and its stored data. *)
Definition localSize (e : Entry) : Z := 30 + len (nameBytes e) + len (finalData e).

Definition centralSize (e : Entry) : Z := 46 + len (nameBytes e).

(** The fields of an entry written at [offset] are in range. *)
Definition entryFits (e : Entry) (offset : Z) : bool :=
  (len (data (e_file e)) <=? 0xFFFFFFFF)
  && (len (nameBytes e) <=? 0xFFFF)
  && (offset <=? 0xFFFFFFFF).

(** The array [localHeaders] after the loop, the first entry being at [offset]. *)
Fixpoint localHeadersOf (es : list Entry) (offset : Z) : list LocalHeader :=
  match es with
  | [] => []
  | e :: es' =>
    mkLocalHeader (localHeaderOf e) (finalData e) offset
    :: localHeadersOf es' (offset + localSize e)
  end.

(** The array [centralHeaders] after the loop. *)
Fixpoint centralHeadersOf (es : list Entry) (offset : Z) : list Buffer :=
  match es with
  | [] => []
  | e :: es' => centralHeaderOf e offset :: centralHeadersOf es' (offset + localSize e)
  end.

Fixpoint sumZ (l : list Z) : Z :=
  match l with
  | [] => 0
  | x :: l' => x + sumZ l'
  end.

(** Length of the part of the archive that holds the local headers and
    the stored data, and length of the central directory. *)
Definition localTotal (es : list Entry) : Z := sumZ (map localSize es).
Definition centralTotal (es : list Entry) : Z := sumZ (map centralSize es).

(** The fields of the end-of-central-directory record are in range. *)
Definition eocdFits (es : list Entry) : bool :=
  (len es <=? 0xFFFF) && (centralTotal es <=? 0xFFFFFFFF) && (localTotal es <=? 0xFFFFFFFF).

(** All (local header, stored data) pairs in entry order. *)
Definition localSection (es : list Entry) : Buffer :=
  concat (map (fun e => localHeaderOf e ++ finalData e) es).

(** All central directory headers in entry order, the first entry's
    local header being at [offset]. *)
Definition centralSection (es : list Entry) (offset : Z) : Buffer :=
  concat (centralHeadersOf es offset).

(** The archive: local part, central directory, end record. *)
Definition archive (es : list Entry) : Buffer :=
  localSection es ++ centralSection es 0
  ++ Layout.eocd (len es) (centralTotal es) (localTotal es).

Section Entries.

Variable deflateRawSync : Buffer -> option Buffer.

(** The candidate of a file: [file.compress ? zlib.deflateRawSync(data) : data],
    [None] when the call throws. *)
Definition candidate (f : File) : option Buffer :=
  if compress f then deflateRawSync (data f) else Some (data f).

(** The entries the loop has built when it ends, or what it throws:
    for each file in turn the candidate, then the range checks of the
    header writes at the running offset. *)
Fixpoint scan (files : list File) (offset : Z) : Result (list Entry) :=
  match files with
  | [] => Ok []
  | f :: files' =>
    match candidate f with
    | None => Throw DeflateFailure
    | Some c =>
      let e := mkEntry f c in
      if entryFits e offset then
        match scan files' (offset + localSize e) with
        | Ok es => Ok (e :: es)
        | Throw x => Throw x
        end
      else Throw ValueOutOfRange
    end
  end.

(** The candidates of all files, when no call of deflate throws. *)
Fixpoint entriesOf (files : list File) : option (list Entry) :=
  match files with
  | [] => Some []
  | f :: files' =>
    match candidate f, entriesOf files' with
    | Some c, Some es => Some (mkEntry f c :: es)
    | _, _ => None
    end
  end.

(** What [createZipBuffer] returns or throws. *)
Definition outcome (files : list File) : Result Buffer :=
  match scan files 0 with
  | Ok es => if eocdFits es then Ok (archive es) else Throw ValueOutOfRange
  | Throw x => Throw x
  end.

End Entries.

(** The simple, order-independent condition under which every field of
    the archive is in range. *)
Definition fits (es : list Entry) : bool :=
  forallb (fun e => (len (data (e_file e)) <=? 0xFFFFFFFF)
                    && (len (nameBytes e) <=? 0xFFFF)) es
  && eocdFits es.

(** ** Where the headers of the i-th entry are *)

(** Position of the i-th local header: 0 for the first entry, and for each
    further entry the previous position plus 30, the length of the previous
    name and the length of the previous stored data. *)
Fixpoint localOffset (es : list Entry) (i : nat) : Z :=
  match i with
  | O => 0
  | S j =>
    localOffset es j
    + match nth_error es j with
      | Some e => 30 + len (nameBytes e) + len (finalData e)
      | None => 0
      end
  end.

(** Position of the i-th central directory header: after the local part,
    and after the central headers of the entries before it. *)
Definition centralOffset (es : list Entry) (i : nat) : Z :=
  localTotal es + centralTotal (firstn i es).

(** ** What the archive holds for the i-th entry *)

(** The local header of [e] and its stored data stand at [localOffset es i],
    its central directory header at [centralOffset es i], with these
    fields. *)
Definition entry_written (out : Buffer) (es : list Entry) (i : nat) (e : Entry) : Prop :=
  let lo := localOffset es i in
  let co := centralOffset es i in
  let nb := nameBytes e in
  (readUInt32LE out lo = 0x04034b50
   /\ readUInt16LE out (lo + 8) = method e
   /\ readUInt32LE out (lo + 14) = Ref.crc32 (data (e_file e))
   /\ readUInt32LE out (lo + 18) = len (finalData e)
   /\ readUInt32LE out (lo + 22) = len (data (e_file e))
   /\ readUInt16LE out (lo + 26) = len nb
   /\ subarray out (lo + 30) (len nb) = nb
   /\ subarray out (lo + 30 + len nb) (len (finalData e)) = finalData e)
  /\ (readUInt32LE out co = 0x02014b50
      /\ readUInt16LE out (co + 10) = method e
      /\ readUInt32LE out (co + 16) = Ref.crc32 (data (e_file e))
      /\ readUInt32LE out (co + 20) = len (finalData e)
      /\ readUInt32LE out (co + 24) = len (data (e_file e))
      /\ readUInt16LE out (co + 28) = len nb
      /\ readUInt32LE out (co + 42) = lo
      /\ subarray out (co + 46) (len nb) = nb).

(** ** A worked example *)

(** A stand-in for zlib in the examples: it answers with the first half of
    its input, so that the candidate of a non-empty buffer is shorter. *)
Definition exampleDeflate (b : Buffer) : option Buffer :=
  Some (firstn (length b / 2) b).

Definition exampleFiles : list File :=
  let files := [] in
  let files := addFile files (literal "mimetype"%string)
                 (Text (literal "application/epub+zip"%string)) (Some false) in
  addFile files (literal "OEBPS/content.opf"%string)
    (Text (literal "<package/>"%string)) None.

Definition opf : File :=
  mkFile (literal "OEBPS/content.opf"%string) (literal "<package/>"%string) true.

Definition exampleEntries : list Entry :=
  [mkEntry mimetype (data mimetype); mkEntry opf (literal "<pack"%string)].

Definition exampleArchive : Buffer :=
  Eval vm_compute in archive exampleEntries.

(** A deflate that throws on every input. *)
Definition failingDeflate (b : Buffer) : option Buffer := None.

(** * Part II-b: [escapeHtml], sequences of [addFile] calls, and what a
    reader takes out of an archive *)

(** ** [escapeHtml] (src/main.js, lines 1221-1230) *)

(** The values [escapeHtml] is called with: a string, or [undefined] or
    [null] where a title is missing. *)
Inductive JSValue : Type :=
  | Undefined
  | Null
  | Str (s : JSString).

(** [!v]: [undefined], [null] and the empty string are falsy. *)
Definition falsy (v : JSValue) : bool :=
  match v with
  | Undefined | Null => true
  | Str [] => true
  | Str (_ :: _) => false
  end.

(** [String(v)] *)
Definition toString (v : JSValue) : JSString :=
  match v with
  | Undefined => literal "undefined"%string
  | Null => literal "null"%string
  | Str s => s
  end.

(** The code unit of an ASCII character. *)
Definition charCode (a : Ascii.ascii) : Z := Z.of_N (Ascii.N_of_ascii a).

(** The five characters of the patterns: ampersand, less-than,
    greater-than, double quote (code unit 34) and single quote. *)
Definition c_amp : Z := charCode "&"%char.
Definition c_lt : Z := charCode "<"%char.
Definition c_gt : Z := charCode ">"%char.
Definition c_quot : Z := 34.
Definition c_apos : Z := charCode "'"%char.

(** [s.replace(/c/g, replacement)] for a pattern that is the one character
    [c] and a replacement without [$]: every occurrence of [c], from left
    to right, gives way to [replacement], which is not scanned again. *)
Definition replaceAll (c : Z) (replacement : JSString) (s : JSString) : JSString :=
  flat_map (fun x => if x =? c then replacement else [x]) s.

(** [escapeHtml(str)] *)
Definition escapeHtml (str : JSValue) : JSString :=
  if falsy str then literal ""%string
  else
    replaceAll c_apos (literal "&#39;"%string)
      (replaceAll c_quot (literal "&quot;"%string)
         (replaceAll c_gt (literal "&gt;"%string)
            (replaceAll c_lt (literal "&lt;"%string)
               (replaceAll c_amp (literal "&amp;"%string)
                  (toString str))))).

(** [c] is one of the five characters [escapeHtml] replaces. *)
Definition special (c : Z) : bool :=
  (c =? c_amp) || (c =? c_lt) || (c =? c_gt) || (c =? c_quot) || (c =? c_apos).

(** The entity of a special character; any other code unit stands for itself. *)
Definition escapeChar (c : Z) : JSString :=
  if c =? c_amp then literal "&amp;"%string
  else if c =? c_lt then literal "&lt;"%string
  else if c =? c_gt then literal "&gt;"%string
  else if c =? c_quot then literal "&quot;"%string
  else if c =? c_apos then literal "&#39;"%string
  else [c].

Definition entities : list JSString :=
  [literal "&amp;"%string; literal "&lt;"%string; literal "&gt;"%string;
   literal "&quot;"%string; literal "&#39;"%string].

(** ** The calls of [addFile] that follow the first one *)

(** The arguments of one call: [name], [content] and, when given, [compress]. *)
Definition AddFileArgs : Type := (JSString * Content * option bool)%type.

(** [files] after the calls [addFile(name, content, compress)] of [calls],
    in order. *)
Definition addFiles (calls : list AddFileArgs) (files : list File) : list File :=
  fold_left (fun files '(name, content, compress) => addFile files name content compress)
    calls files.

(** Length of the archive in which every payload is stored as it is:
    22 octets, and per file 30 + 46 octets, twice the name and the payload. *)
Definition storedLength (files : list File) : Z :=
  22 + sumZ (map (fun f => 76 + 2 * len (Buffer_from (name f)) + len (data f)) files).

(** What a reader takes out for the entry whose central directory header is
    at [co]: it follows the local-header-offset field, skips the local
    header and the name, takes as many octets as the compressed-size field
    says, and inflates them when the method field is 8. *)
Definition extract (inflate : Buffer -> Buffer) (out : Buffer) (co : Z) : Buffer :=
  let lo := readUInt32LE out (co + 42) in
  let stored := subarray out (lo + 30 + readUInt16LE out (lo + 26))
                  (readUInt32LE out (lo + 18)) in
  if readUInt16LE out (lo + 8) =? 8 then inflate stored else stored.

(** A toy codec for the examples: a buffer that begins with three equal
    octets loses two of them and gets the mark 1, any other buffer gets the
    mark 0. *)
Definition runDeflate (b : Buffer) : option Buffer :=
  match b with
  | x :: y :: z :: t => if (x =? y) && (y =? z) then Some (1 :: x :: t) else Some (0 :: b)
  | _ => Some (0 :: b)
  end.

Definition runInflate (c : Buffer) : Buffer :=
  match c with
  | 1 :: x :: t => x :: x :: x :: t
  | _ :: d => d
  | [] => []
  end.

Definition runFiles : list File :=
  [mimetype; mkFile (literal "a.bin"%string) [7; 7; 7; 7; 7] true].

Definition runEntries : list Entry :=
  [mkEntry mimetype (data mimetype);
   mkEntry (mkFile (literal "a.bin"%string) [7; 7; 7; 7; 7] true) [1; 7; 7; 7]].

Definition runArchive : Buffer :=
  Eval vm_compute in archive runEntries.

(** A list begins with one of the five entities. *)
Definition entityAt (l : JSString) : Prop :=
  exists ent rest, In ent entities /\ l = ent ++ rest.

(** The table index of the loop body of [crc32], as an index of a list. *)
Definition tableIndex (acc byte : Z) : nat := Z.to_nat (Z.land (Z.lxor acc byte) 255).

(** No value occurs twice in [l]. *)
Fixpoint distinct (l : list Z) : bool :=
  match l with
  | [] => true
  | x :: t => negb (existsb (Z.eqb x) t) && distinct t
  end.

(** An archive with one file, and one whose second file is empty. *)
Definition mimetypeArchive : Buffer :=
  Eval vm_compute in archive [mkEntry mimetype (data mimetype)].

Definition emptyFiles : list File :=
  [mimetype; mkFile (literal "empty.txt"%string) [] true].

Definition emptyEntries : list Entry :=
  [mkEntry mimetype (data mimetype);
   mkEntry (mkFile (literal "empty.txt"%string) [] true) [0]].

Definition emptyArchive : Buffer :=
  Eval vm_compute in archive emptyEntries.

(** A file that runDeflate does not shorten, and a file whose name takes
    65536 octets. *)
Definition helloFiles : list File :=
  [mimetype; mkFile (literal "a.txt"%string) (literal "hello"%string) true].

Definition helloEntries : list Entry :=
  [mkEntry mimetype (data mimetype);
   mkEntry (mkFile (literal "a.txt"%string) (literal "hello"%string) true)
           (0 :: literal "hello"%string)].


(** * Part III: proofs *)

(** ** Bit-level facts about the 32-bit conversions *)

Lemma ToUint32_range x : 0 <= JS.ToUint32 x < 2 ^ 32.
Proof. unfold JS.ToUint32. apply Z.mod_pos_bound. lia. Qed.

Lemma ToUint32_small x : 0 <= x < 2 ^ 32 -> JS.ToUint32 x = x.
Proof. intros H. unfold JS.ToUint32. apply Z.mod_small. exact H. Qed.

Lemma ToUint32_ones x : JS.ToUint32 x = Z.land x (Z.ones 32).
Proof. unfold JS.ToUint32. rewrite Z.land_ones by lia. reflexivity. Qed.

Lemma ToUint32_ToInt32 x : JS.ToUint32 (JS.ToInt32 x) = JS.ToUint32 x.
Proof.
  unfold JS.ToUint32, JS.ToInt32.
  destruct (x mod 2 ^ 32 <? 2 ^ 31).
  - apply Z.mod_mod. lia.
  - replace (x mod 2 ^ 32 - 2 ^ 32) with (x mod 2 ^ 32 + (-1) * 2 ^ 32) by lia.
    rewrite Z.mod_add by lia. apply Z.mod_mod. lia.
Qed.

Lemma ToUint32_lxor a b :
  JS.ToUint32 (Z.lxor a b) = Z.lxor (JS.ToUint32 a) (JS.ToUint32 b).
Proof.
  rewrite !ToUint32_ones. apply Z.bits_inj'. intros n Hn.
  rewrite Z.lxor_spec, !Z.land_spec, Z.lxor_spec.
  destruct (Z.testbit (Z.ones 32) n); rewrite ?andb_true_r, ?andb_false_r; reflexivity.
Qed.

Lemma ToUint32_xor a b :
  JS.ToUint32 (JS.xor a b) = Z.lxor (JS.ToUint32 a) (JS.ToUint32 b).
Proof. unfold JS.xor. rewrite ToUint32_lxor, !ToUint32_ToInt32. reflexivity. Qed.

Lemma ToInt32_testbit x n : 0 <= n < 32 -> Z.testbit (JS.ToInt32 x) n = Z.testbit x n.
Proof.
  intros Hn.
  assert (H : Z.testbit (JS.ToUint32 (JS.ToInt32 x)) n = Z.testbit (JS.ToUint32 x) n)
    by (rewrite ToUint32_ToInt32; reflexivity).
  unfold JS.ToUint32 in H.
  rewrite !Z.mod_pow2_bits_low in H by lia. exact H.
Qed.

Lemma ToUint32_testbit x n : 0 <= n < 32 -> Z.testbit (JS.ToUint32 x) n = Z.testbit x n.
Proof. intros Hn. unfold JS.ToUint32. apply Z.mod_pow2_bits_low. lia. Qed.

Lemma lxor_range a b : 0 <= a < 2 ^ 32 -> 0 <= b < 2 ^ 32 -> 0 <= Z.lxor a b < 2 ^ 32.
Proof.
  intros Ha Hb.
  rewrite <- (ToUint32_small a Ha), <- (ToUint32_small b Hb), <- ToUint32_lxor.
  apply ToUint32_range.
Qed.

Lemma shiftr_range a n : 0 <= n -> 0 <= a < 2 ^ 32 -> 0 <= Z.shiftr a n < 2 ^ 32.
Proof.
  intros Hn Ha. rewrite Z.shiftr_div_pow2 by lia. split.
  - apply Z.div_pos; lia.
  - apply Z.le_lt_trans with a; [|lia].
    apply Z.div_le_upper_bound; [lia|]. nia.
Qed.

(** The table index computed by the code is the low octet of
    accumulator XOR byte. *)
Lemma index_low_octet crc byte :
  JS.and (JS.xor crc byte) 0xFF = Z.land (Z.lxor (JS.ToUint32 crc) byte) 0xFF.
Proof.
  unfold JS.and, JS.xor. change (JS.ToInt32 255) with (Z.ones 8).
  change 255 with (Z.ones 8).
  rewrite !Z.land_ones by lia. apply Z.bits_inj'. intros n Hn.
  destruct (Z_lt_le_dec n 8) as [Hlt|Hge].
  - rewrite !Z.mod_pow2_bits_low by lia.
    rewrite ToInt32_testbit by lia.
    rewrite !Z.lxor_spec, !ToInt32_testbit, ToUint32_testbit by lia. reflexivity.
  - rewrite !Z.mod_pow2_bits_high by lia. reflexivity.
Qed.

Lemma low_octet_range x : 0 <= Z.land x 0xFF < 256.
Proof.
  change 255 with (Z.ones 8). rewrite Z.land_ones by lia.
  apply Z.mod_pos_bound. lia.
Qed.

(** ** The table the code builds is the reference table *)

Lemma crc32Table_build_ref : crc32Table_build = Ref.table.
Proof. vm_compute. reflexivity. Qed.

Lemma table_entries_range i : 0 <= nth i Ref.table 0 < 2 ^ 32.
Proof.
  destruct (Nat.lt_ge_cases i 256) as [Hlt|Hge].
  - assert (H : forallb (fun t => (0 <=? t) && (t <? 2 ^ 32)) Ref.table = true)
      by (vm_compute; reflexivity).
    rewrite forallb_forall in H.
    specialize (H (nth i Ref.table 0)).
    assert (Hin : In (nth i Ref.table 0) Ref.table)
      by (apply nth_In; unfold Ref.table; rewrite length_map, length_seq; exact Hlt).
    apply H in Hin. apply andb_true_iff in Hin. lia.
  - rewrite nth_overflow; [lia|].
    unfold Ref.table. rewrite length_map, length_seq. exact Hge.
Qed.

Lemma getCrc32Table_ok st :
  cache_ok st -> getCrc32Table st = (Ref.table, Some crc32Table_build).
Proof.
  intros [->| ->]; simpl; rewrite crc32Table_build_ref; reflexivity.
Qed.

(** ** The accumulator of the code tracks the reference accumulator *)

Lemma update_range acc byte : 0 <= acc < 2 ^ 32 -> 0 <= Ref.update acc byte < 2 ^ 32.
Proof.
  intros Ha. unfold Ref.update.
  apply lxor_range; [apply shiftr_range; lia | apply table_entries_range].
Qed.

Lemma crc32_step_ref crc byte :
  JS.ToUint32 (crc32_step Ref.table crc byte) = Ref.update (JS.ToUint32 crc) byte.
Proof.
  unfold crc32_step, Ref.update.
  rewrite ToUint32_xor, index_low_octet.
  unfold get. pose proof (low_octet_range (Z.lxor (JS.ToUint32 crc) byte)) as Hidx.
  destruct (Z.ltb_spec (Z.land (Z.lxor (JS.ToUint32 crc) byte) 255) 0) as [Hneg|_]; [lia|].
  f_equal.
  - apply ToUint32_small. unfold JS.ushr. change (JS.ToUint32 8 mod 32) with 8.
    apply shiftr_range; [lia | apply ToUint32_range].
  - apply ToUint32_small. apply table_entries_range.
Qed.

Lemma crc32_loop_ref buffer crc :
  JS.ToUint32 (fold_left (crc32_step Ref.table) buffer crc)
  = fold_left Ref.update buffer (JS.ToUint32 crc).
Proof.
  revert crc. induction buffer as [|b buffer IH]; intros crc; simpl.
  - reflexivity.
  - rewrite IH, crc32_step_ref. reflexivity.
Qed.

Lemma ref_loop_range buffer acc :
  0 <= acc < 2 ^ 32 -> 0 <= fold_left Ref.update buffer acc < 2 ^ 32.
Proof.
  revert acc. induction buffer as [|b buffer IH]; intros acc Ha; simpl.
  - exact Ha.
  - apply IH, update_range, Ha.
Qed.

Lemma crc32_value buffer st :
  cache_ok st -> crc32 buffer st = (Ref.crc32 buffer, Some crc32Table_build).
Proof.
  intros Hst. unfold crc32. rewrite (getCrc32Table_ok st Hst). f_equal.
  unfold JS.ushr. change (JS.ToUint32 0 mod 32) with 0. rewrite Z.shiftr_0_r.
  rewrite ToUint32_xor, crc32_loop_ref.
  unfold Ref.crc32. change (JS.ToUint32 4294967295) with 4294967295.
  symmetry. apply Z.mod_small. apply lxor_range; [|lia].
  apply ref_loop_range. lia.
Qed.

Lemma crc32_range buffer : 0 <= Ref.crc32 buffer < 2 ^ 32.
Proof. unfold Ref.crc32. apply Z.mod_pos_bound. lia. Qed.

(** ** Evaluating the write methods *)

Lemma len_app {A} (a b : list A) : len (a ++ b) = len a + len b.
Proof. unfold len. rewrite length_app. lia. Qed.

Lemma len_nonneg {A} (a : list A) : 0 <= len a.
Proof. unfold len. lia. Qed.

Lemma alloc_split (n : nat) (nb : Buffer) :
  alloc (Z.of_nat n + len nb) = repeat 0 n ++ repeat 0 (length nb).
Proof.
  unfold alloc, len.
  rewrite <- Nat2Z.inj_add, Nat2Z.id. apply repeat_app.
Qed.

Lemma blit_app bs off pre tl :
  (off + length bs <= length pre)%nat ->
  blit bs off (pre ++ tl) = blit bs off pre ++ tl.
Proof.
  intros H. unfold blit.
  rewrite firstn_app, skipn_app.
  replace (off - length pre)%nat with 0%nat by lia.
  replace (off + length bs - length pre)%nat with 0%nat by lia.
  simpl. rewrite app_nil_r, <- !app_assoc. reflexivity.
Qed.

Lemma checkInt_pass buf value max offset width :
  0 <= value <= max -> 0 <= offset -> offset + width <= len buf ->
  checkInt buf value max offset width = None.
Proof.
  intros Hv Ho Hw. unfold checkInt.
  destruct (Z.ltb_spec value 0); [lia|].
  destruct (Z.ltb_spec max value); [lia|].
  destruct (Z.ltb_spec offset 0); [lia|].
  destruct (Z.ltb_spec (len buf) (offset + width)); [lia|]. reflexivity.
Qed.

Lemma checkInt_value buf value max offset width :
  max < value -> checkInt buf value max offset width = Some ValueOutOfRange.
Proof.
  intros Hv. unfold checkInt.
  destruct (Z.ltb_spec max value); [|lia]. rewrite orb_true_r. reflexivity.
Qed.

Lemma writeUInt16LE_app pre tl value offset n :
  Z.to_nat offset = n -> 0 <= offset -> (n + 2 <= length pre)%nat ->
  0 <= value <= 0xFFFF ->
  writeUInt16LE (pre ++ tl) value offset = Ok (blit (le16 value) n pre ++ tl).
Proof.
  intros <- Ho Hn Hv. unfold writeUInt16LE.
  rewrite checkInt_pass; [rewrite blit_app by (simpl; lia); reflexivity|lia|lia|].
  rewrite len_app. pose proof (len_nonneg tl). unfold len in *. lia.
Qed.

Lemma writeUInt32LE_app pre tl value offset n :
  Z.to_nat offset = n -> 0 <= offset -> (n + 4 <= length pre)%nat ->
  0 <= value <= 0xFFFFFFFF ->
  writeUInt32LE (pre ++ tl) value offset = Ok (blit (le32 value) n pre ++ tl).
Proof.
  intros <- Ho Hn Hv. unfold writeUInt32LE.
  rewrite checkInt_pass; [rewrite blit_app by (simpl; lia); reflexivity|lia|lia|].
  rewrite len_app. pose proof (len_nonneg tl). unfold len in *. lia.
Qed.

Lemma writeUInt16LE_value buf value offset :
  0xFFFF < value -> writeUInt16LE buf value offset = Throw ValueOutOfRange.
Proof. intros H. unfold writeUInt16LE. rewrite checkInt_value by exact H. reflexivity. Qed.

Lemma writeUInt32LE_value buf value offset :
  0xFFFFFFFF < value -> writeUInt32LE buf value offset = Throw ValueOutOfRange.
Proof. intros H. unfold writeUInt32LE. rewrite checkInt_value by exact H. reflexivity. Qed.

Lemma copy_tail source pre start :
  len pre = start ->
  copy source (pre ++ repeat 0 (length source)) start = Ok (pre ++ source).
Proof.
  intros <-. unfold copy.
  destruct (Z.ltb_spec (len pre) 0) as [H|_]; [pose proof (len_nonneg pre); lia|].
  rewrite len_app. unfold len at 1 2 3. rewrite repeat_length.
  destruct source as [|b source].
  - simpl. rewrite Z.add_0_r, Z.leb_refl, !app_nil_r. reflexivity.
  - destruct (Z.leb_spec (Z.of_nat (length pre) + Z.of_nat (length (b :: source)))
                (Z.of_nat (length pre))) as [H|_]; [simpl in H; lia|].
    f_equal. unfold len, blit. rewrite Nat2Z.id.
    rewrite length_app, repeat_length.
    replace (length pre + length (b :: source) - length pre)%nat
      with (length (b :: source)) by lia.
    rewrite firstn_all, firstn_app, Nat.sub_diag, firstn_all. simpl firstn.
    rewrite app_nil_r. f_equal.
    rewrite skipn_all2; [apply app_nil_r|].
    rewrite length_app, repeat_length. lia.
Qed.

Lemma bind_Ok {A B} (a : A) (k : A -> M B) st : bind (lift (Ok a)) k st = k a st.
Proof. reflexivity. Qed.

Lemma bind_Throw {A B} e (k : A -> M B) st :
  bind (lift (Throw e)) k st = (Throw e, st).
Proof. reflexivity. Qed.

(** One write of a header whose fixed part is an explicit list. *)
Ltac blit_eval bs n pre :=
  let r := eval cbn [blit firstn skipn app length Nat.add le16 le32] in (blit bs n pre) in
  change (blit bs n pre) with r.

Ltac write_step :=
  lazymatch goal with
  | |- bind (lift (writeUInt32LE (?pre ++ ?tl) ?v ?off)) _ _ = _ =>
      let n := eval vm_compute in (Z.to_nat off) in
      rewrite (writeUInt32LE_app pre tl v off n eq_refl)
        by (try (cbn [length]); lia);
      blit_eval (le32 v) n pre
  | |- bind (lift (writeUInt16LE (?pre ++ ?tl) ?v ?off)) _ _ = _ =>
      let n := eval vm_compute in (Z.to_nat off) in
      rewrite (writeUInt16LE_app pre tl v off n eq_refl)
        by (try (cbn [length]); lia);
      blit_eval (le16 v) n pre
  end;
  rewrite bind_Ok; cbv beta.

(** ** Sizes of the headers and of the stored data *)

Lemma len_localHeaderOf e : len (localHeaderOf e) = 30 + len (nameBytes e).
Proof.
  unfold localHeaderOf, Layout.localHeader.
  rewrite !len_app. unfold le32, le16, len. cbn [length]. lia.
Qed.

Lemma len_centralHeaderOf e offset : len (centralHeaderOf e offset) = centralSize e.
Proof.
  unfold centralHeaderOf, Layout.centralHeader, centralSize.
  rewrite !len_app. unfold le32, le16, len. cbn [length]. lia.
Qed.

Lemma len_finalData_le e : len (finalData e) <= len (data (e_file e)).
Proof.
  unfold finalData, useCompression.
  destruct (compress (e_file e)); simpl; [|lia].
  destruct (Z.ltb_spec (len (e_compressed e)) (len (data (e_file e)))); lia.
Qed.

Lemma method_range e : 0 <= method e <= 8.
Proof. unfold method. destruct (useCompression e); lia. Qed.

Lemma bind_call {A B} (f : Cache -> A * Cache) (k : A -> M B) st a st' :
  f st = (a, st') -> bind (call f) k st = k a st'.
Proof. intros H. unfold bind, call. rewrite H. reflexivity. Qed.

(** ** The loop of [createZipBuffer] and the function itself, evaluated *)

Section Evaluation.

Variable deflateRawSync : Buffer -> option Buffer.

Lemma body_eval lhs chs offset f st :
  cache_ok st -> 0 <= offset ->
  createZipBuffer_body deflateRawSync (lhs, chs, offset) f st =
  match candidate deflateRawSync f with
  | None => (Throw DeflateFailure, st)
  | Some c =>
    let e := mkEntry f c in
    if entryFits e offset
    then (Ok (lhs ++ [mkLocalHeader (localHeaderOf e) (finalData e) offset],
              chs ++ [centralHeaderOf e offset],
              offset + localSize e),
          Some crc32Table_build)
    else (Throw ValueOutOfRange, Some crc32Table_build)
  end.
Proof.
  intros Hst Hoff.
  unfold createZipBuffer_body.
  assert (Hc : lift (if compress f then deflate deflateRawSync (data f) else Ok (data f))
               = lift (match candidate deflateRawSync f with Some c => Ok c | None => Throw DeflateFailure end)).
  { unfold candidate, deflate. destruct (compress f); reflexivity. }
  rewrite Hc. clear Hc.
  destruct (candidate deflateRawSync f) as [c|]; [|reflexivity].
  rewrite bind_Ok. cbv beta.
  rewrite (bind_call _ _ _ _ _ (crc32_value (data f) st Hst)).
  set (e := mkEntry f c).
  change (compress f && (len c <? len (data f))) with (useCompression e).
  change (if useCompression e then c else data f) with (finalData e).
  change (if useCompression e then 8 else 0) with (method e).
  change (Buffer_from (name f)) with (nameBytes e).
  change (data f) with (data (e_file e)).
  pose proof (method_range e) as Hm.
  pose proof (len_finalData_le e) as Hfd.
  pose proof (len_nonneg (finalData e)) as Hfd0.
  pose proof (len_nonneg (nameBytes e)) as Hnb0.
  pose proof (len_nonneg (data (e_file e))) as Hd0.
  pose proof (crc32_range (data (e_file e))) as Hcrc.
  assert (Hcrc' : 0 <= Ref.crc32 (data (e_file e)) <= 4294967295) by lia.
  clear Hcrc.
  set (crc := Ref.crc32 (data (e_file e))) in *.
  unfold entryFits, localSize.
  change 30 with (Z.of_nat 30) at 1. change 46 with (Z.of_nat 46) at 1.
  rewrite !alloc_split.
  cbn [repeat].
  do 7 write_step.
  destruct (Z.leb_spec (len (data (e_file e))) 4294967295) as [Hd|Hd]; cbn [andb].
  2: { destruct (Z.leb_spec (len (finalData e)) 4294967295) as [Hf|Hf].
       - write_step. rewrite writeUInt32LE_value by lia. reflexivity.
       - rewrite writeUInt32LE_value by lia. reflexivity. }
  do 2 write_step.
  destruct (Z.leb_spec (len (nameBytes e)) 65535) as [Hn|Hn]; cbn [andb].
  2: { rewrite writeUInt16LE_value by lia. reflexivity. }
  do 2 write_step.
  rewrite copy_tail by reflexivity. rewrite bind_Ok. cbv beta.
  do 16 write_step.
  destruct (Z.leb_spec offset 4294967295) as [Ho|Ho].
  2: { rewrite writeUInt32LE_value by lia. reflexivity. }
  write_step.
  rewrite copy_tail by reflexivity. rewrite bind_Ok. cbv beta.
  unfold ret. rewrite len_app. reflexivity.
Qed.

Lemma localSize_pos e : 30 <= localSize e.
Proof.
  unfold localSize.
  pose proof (len_nonneg (nameBytes e)). pose proof (len_nonneg (finalData e)). lia.
Qed.

Lemma localTotal_nonneg es : 0 <= localTotal es.
Proof.
  unfold localTotal. induction es as [|e es IH]; simpl; [lia|].
  pose proof (localSize_pos e). lia.
Qed.

Lemma loop_eval files : forall lhs chs offset st,
  cache_ok st -> 0 <= offset ->
  exists st', cache_ok st' /\
    forOf (createZipBuffer_body deflateRawSync) files (lhs, chs, offset) st =
    (match scan deflateRawSync files offset with
     | Ok es => Ok (lhs ++ localHeadersOf es offset,
                    chs ++ centralHeadersOf es offset,
                    offset + localTotal es)
     | Throw x => Throw x
     end, st').
Proof.
  induction files as [|f files IH]; intros lhs chs offset st Hst Hoff.
  - exists st. split; [exact Hst|]. simpl. unfold ret, localTotal. simpl.
    rewrite !app_nil_r, Z.add_0_r. reflexivity.
  - cbn [forOf scan]. unfold bind at 1. rewrite body_eval by assumption.
    destruct (candidate deflateRawSync f) as [c|].
    + cbv zeta. destruct (entryFits (mkEntry f c) offset).
      * set (e := mkEntry f c).
        destruct (IH (lhs ++ [mkLocalHeader (localHeaderOf e) (finalData e) offset])
                     (chs ++ [centralHeaderOf e offset])
                     (offset + localSize e) (Some crc32Table_build))
          as (st' & Hst' & Heq).
        { right. reflexivity. }
        { pose proof (localSize_pos e). lia. }
        exists st'. split; [exact Hst'|]. rewrite Heq.
        destruct (scan deflateRawSync files (offset + localSize e)) as [es|x]; [|reflexivity].
        cbn [localHeadersOf centralHeadersOf]. unfold localTotal. cbn [map sumZ].
        rewrite <- !app_assoc, Z.add_assoc. reflexivity.
      * exists (Some crc32Table_build). split; [right|]; reflexivity.
    + exists st. split; [exact Hst | reflexivity].
Qed.

Lemma scan_length files : forall offset es,
  scan deflateRawSync files offset = Ok es -> length es = length files.
Proof.
  induction files as [|f files IH]; intros offset es H; simpl in H.
  - injection H as <-. reflexivity.
  - destruct (candidate deflateRawSync f) as [c|]; [|discriminate].
    destruct (entryFits (mkEntry f c) offset); [|discriminate].
    destruct (scan deflateRawSync files (offset + localSize (mkEntry f c))) as [es'|] eqn:E; [|discriminate].
    injection H as <-. simpl. f_equal. eapply IH, E.
Qed.

Lemma centralSize_loop (chs : list Buffer) : forall acc,
  fold_left (fun centralSize ch => centralSize + len ch) chs acc = acc + sumZ (map len chs).
Proof.
  induction chs as [|ch chs IH]; intros acc; simpl; [lia|]. rewrite IH. lia.
Qed.

Lemma len_centralHeadersOf es : forall offset,
  map len (centralHeadersOf es offset) = map centralSize es.
Proof.
  induction es as [|e es IH]; intros offset; simpl; [reflexivity|].
  rewrite len_centralHeaderOf, IH. reflexivity.
Qed.

Lemma parts_local_loop lhs : forall parts,
  fold_left (fun parts lh => parts ++ [lh_header lh; lh_data lh]) lhs parts
  = parts ++ concat (map (fun lh => [lh_header lh; lh_data lh]) lhs).
Proof.
  induction lhs as [|lh lhs IH]; intros parts; simpl.
  - rewrite app_nil_r. reflexivity.
  - rewrite IH, <- app_assoc. reflexivity.
Qed.

Lemma parts_central_loop (chs : list Buffer) : forall parts,
  fold_left (fun parts ch => parts ++ [ch]) chs parts = parts ++ chs.
Proof.
  induction chs as [|ch chs IH]; intros parts; simpl.
  - rewrite app_nil_r. reflexivity.
  - rewrite IH, <- app_assoc. reflexivity.
Qed.

Lemma concat_localHeadersOf es : forall offset,
  concat (concat (map (fun lh => [lh_header lh; lh_data lh]) (localHeadersOf es offset)))
  = localSection es.
Proof.
  unfold localSection.
  induction es as [|e es IH]; intros offset; simpl; [reflexivity|].
  rewrite IH, <- app_assoc. reflexivity.
Qed.

(** [createZipBuffer] returns or throws what [outcome] says, and leaves
    the cache in one of its two states. *)
Lemma createZipBuffer_eval files st :
  cache_ok st ->
  exists st', cache_ok st' /\
    createZipBuffer deflateRawSync files st = (outcome deflateRawSync files, st').
Proof.
  intros Hst. unfold createZipBuffer, outcome. unfold bind at 1.
  destruct (loop_eval files [] [] 0 st Hst) as (st' & Hst' & Heq); [lia|].
  rewrite Heq. exists st'. split; [exact Hst'|].
  destruct (scan deflateRawSync files 0) as [es|x] eqn:Hscan; [|reflexivity].
  cbn [app]. cbv beta iota.
  rewrite centralSize_loop, len_centralHeadersOf.
  fold (centralTotal es). rewrite !Z.add_0_l.
  assert (Hlen : len files = len es)
    by (unfold len; rewrite (scan_length _ _ _ Hscan); reflexivity).
  rewrite Hlen.
  pose proof (len_nonneg es) as Hes.
  pose proof (localTotal_nonneg es) as Hlt.
  assert (Hct : 0 <= centralTotal es).
  { unfold centralTotal. clear. induction es as [|e es IH]; simpl; [lia|].
    unfold centralSize at 1. pose proof (len_nonneg (nameBytes e)). lia. }
  change (alloc 22) with (repeat 0 22 ++ []). cbn [repeat].
  unfold eocdFits.
  do 3 write_step.
  destruct (Z.leb_spec (len es) 65535) as [Hn|Hn]; cbn [andb].
  2: { rewrite writeUInt16LE_value by lia. reflexivity. }
  do 2 write_step.
  destruct (Z.leb_spec (centralTotal es) 4294967295) as [Hc|Hc]; cbn [andb].
  2: { rewrite writeUInt32LE_value by lia. reflexivity. }
  write_step.
  destruct (Z.leb_spec (localTotal es) 4294967295) as [Hl|Hl].
  2: { rewrite writeUInt32LE_value by lia. reflexivity. }
  do 2 write_step.
  unfold ret. f_equal. f_equal.
  rewrite parts_local_loop, parts_central_loop. cbn [app].
  rewrite !concat_app, concat_localHeadersOf.
  unfold archive, centralSection. cbn [concat]. rewrite !app_nil_r.
  rewrite <- app_assoc. reflexivity.
Qed.

End Evaluation.

(** ** Reading the fields of a header back *)

Lemma le16_value v : 0 <= v <= 0xFFFF -> octet 0 v + 2 ^ 8 * octet 1 v = v.
Proof.
  intros H. unfold octet. rewrite !Z.shiftr_div_pow2 by lia.
  change (2 ^ (8 * 0)) with 1. change (2 ^ (8 * 1)) with 256.
  change (2 ^ 8) with 256.
  Z.div_mod_to_equations. lia.
Qed.

Lemma le32_value v :
  0 <= v <= 0xFFFFFFFF ->
  octet 0 v + 2 ^ 8 * octet 1 v + 2 ^ 16 * octet 2 v + 2 ^ 24 * octet 3 v = v.
Proof.
  intros H. unfold octet. rewrite !Z.shiftr_div_pow2 by lia.
  change (2 ^ (8 * 0)) with 1. change (2 ^ (8 * 1)) with 256.
  change (2 ^ (8 * 2)) with 65536. change (2 ^ (8 * 3)) with 16777216.
  change (2 ^ 8) with 256. change (2 ^ 16) with 65536. change (2 ^ 24) with 16777216.
  Z.div_mod_to_equations. lia.
Qed.

Lemma get_nth buf offset n :
  Z.to_nat offset = n -> 0 <= offset -> get buf offset = nth n buf 0.
Proof.
  intros <- H. unfold get. destruct (Z.ltb_spec offset 0); [lia|reflexivity].
Qed.

Lemma get_shift pre h k : 0 <= k -> get (pre ++ h) (len pre + k) = get h k.
Proof.
  intros Hk. pose proof (len_nonneg pre) as Hp.
  rewrite !(get_nth _ _ _ eq_refl) by lia.
  unfold len. rewrite Z2Nat.inj_add, Nat2Z.id by lia.
  rewrite app_nth2_plus. reflexivity.
Qed.

Lemma readUInt16LE_shift pre h k :
  0 <= k -> readUInt16LE (pre ++ h) (len pre + k) = readUInt16LE h k.
Proof.
  intros Hk. unfold readUInt16LE.
  rewrite <- !Z.add_assoc, !get_shift by lia. reflexivity.
Qed.

Lemma readUInt32LE_shift pre h k :
  0 <= k -> readUInt32LE (pre ++ h) (len pre + k) = readUInt32LE h k.
Proof.
  intros Hk. unfold readUInt32LE.
  rewrite <- !Z.add_assoc, !get_shift by lia. reflexivity.
Qed.

Lemma subarray_shift pre h k n :
  0 <= k -> subarray (pre ++ h) (len pre + k) n = subarray h k n.
Proof.
  intros Hk. unfold subarray, len.
  rewrite Z2Nat.inj_add, Nat2Z.id by lia.
  rewrite skipn_app, skipn_all2 by lia.
  replace (length pre + Z.to_nat k - length pre)%nat with (Z.to_nat k) by lia.
  reflexivity.
Qed.

Lemma subarray_middle a h rest k :
  len a = k -> subarray (a ++ h ++ rest) k (len h) = h.
Proof.
  intros <-. unfold subarray, len. rewrite !Nat2Z.id.
  rewrite skipn_app, skipn_all, Nat.sub_diag. simpl.
  rewrite firstn_app, firstn_all, Nat.sub_diag. simpl. apply app_nil_r.
Qed.

(** Turns the reads of a header given as an explicit list into its octets. *)
Ltac read_explicit :=
  unfold readUInt16LE, readUInt32LE;
  repeat lazymatch goal with
  | |- context [get ?h ?off] =>
      let n := eval vm_compute in (Z.to_nat off) in
      rewrite (get_nth h off n eq_refl) by lia
  end;
  cbn [app le16 le32 nth].

Lemma localHeader_fields m crc cs us nb rest :
  0 <= m <= 0xFFFF -> 0 <= crc <= 0xFFFFFFFF ->
  0 <= cs <= 0xFFFFFFFF -> 0 <= us <= 0xFFFFFFFF -> len nb <= 0xFFFF ->
  let h := Layout.localHeader m crc cs us nb ++ rest in
  readUInt32LE h 0 = 0x04034b50 /\ readUInt16LE h 4 = 20 /\ readUInt16LE h 6 = 0
  /\ readUInt16LE h 8 = m /\ readUInt16LE h 10 = 0 /\ readUInt16LE h 12 = 0
  /\ readUInt32LE h 14 = crc /\ readUInt32LE h 18 = cs /\ readUInt32LE h 22 = us
  /\ readUInt16LE h 26 = len nb /\ readUInt16LE h 28 = 0
  /\ subarray h 30 (len nb) = nb.
Proof.
  intros Hm Hcrc Hcs Hus Hnb h. pose proof (len_nonneg nb) as Hnb0.
  subst h. unfold Layout.localHeader. rewrite <- !app_assoc.
  repeat split;
    try (read_explicit; first [apply le32_value | apply le16_value]; lia).
  rewrite !app_assoc, <- app_assoc. apply subarray_middle. reflexivity.
Qed.

Lemma centralHeader_fields m crc cs us offset nb rest :
  0 <= m <= 0xFFFF -> 0 <= crc <= 0xFFFFFFFF ->
  0 <= cs <= 0xFFFFFFFF -> 0 <= us <= 0xFFFFFFFF ->
  0 <= offset <= 0xFFFFFFFF -> len nb <= 0xFFFF ->
  let h := Layout.centralHeader m crc cs us offset nb ++ rest in
  readUInt32LE h 0 = 0x02014b50 /\ readUInt16LE h 4 = 20 /\ readUInt16LE h 6 = 20
  /\ readUInt16LE h 8 = 0 /\ readUInt16LE h 10 = m /\ readUInt16LE h 12 = 0
  /\ readUInt16LE h 14 = 0 /\ readUInt32LE h 16 = crc /\ readUInt32LE h 20 = cs
  /\ readUInt32LE h 24 = us /\ readUInt16LE h 28 = len nb /\ readUInt16LE h 30 = 0
  /\ readUInt16LE h 32 = 0 /\ readUInt16LE h 34 = 0 /\ readUInt16LE h 36 = 0
  /\ readUInt32LE h 38 = 0 /\ readUInt32LE h 42 = offset
  /\ subarray h 46 (len nb) = nb.
Proof.
  intros Hm Hcrc Hcs Hus Hoff Hnb h. pose proof (len_nonneg nb) as Hnb0.
  subst h. unfold Layout.centralHeader. rewrite <- !app_assoc.
  repeat split;
    try (read_explicit; first [apply le32_value | apply le16_value]; lia).
  rewrite !app_assoc, <- app_assoc. apply subarray_middle. reflexivity.
Qed.

Lemma eocd_fields count size offset :
  0 <= count <= 0xFFFF -> 0 <= size <= 0xFFFFFFFF -> 0 <= offset <= 0xFFFFFFFF ->
  let h := Layout.eocd count size offset in
  len h = 22
  /\ readUInt32LE h 0 = 0x06054b50 /\ readUInt16LE h 4 = 0 /\ readUInt16LE h 6 = 0
  /\ readUInt16LE h 8 = count /\ readUInt16LE h 10 = count
  /\ readUInt32LE h 12 = size /\ readUInt32LE h 16 = offset /\ readUInt16LE h 20 = 0.
Proof.
  intros Hc Hs Ho h. subst h. unfold Layout.eocd.
  repeat split;
    try (read_explicit; first [apply le32_value | apply le16_value]; lia).
Qed.

Lemma localTotal_step i : forall es,
  localTotal (firstn (S i) es)
  = localTotal (firstn i es)
    + match nth_error es i with Some e => localSize e | None => 0 end.
Proof.
  unfold localTotal.
  induction i as [|i IH]; intros [|e es]; try reflexivity.
  - simpl. lia.
  - specialize (IH es). cbn [firstn map sumZ nth_error] in *. lia.
Qed.

Lemma localOffset_firstn es i : localOffset es i = localTotal (firstn i es).
Proof.
  induction i as [|i IH]; [reflexivity|].
  cbn [localOffset]. rewrite IH, localTotal_step. reflexivity.
Qed.

Lemma len_concat (l : list Buffer) : len (concat l) = sumZ (map len l).
Proof.
  induction l as [|b l IH]; simpl; [reflexivity|]. rewrite len_app, IH. reflexivity.
Qed.

Lemma len_localSection es : len (localSection es) = localTotal es.
Proof.
  unfold localSection, localTotal, localSize. rewrite len_concat, map_map. f_equal.
  apply map_ext. intros e. rewrite len_app, len_localHeaderOf. reflexivity.
Qed.

Lemma len_centralSection es offset : len (centralSection es offset) = centralTotal es.
Proof.
  unfold centralSection, centralTotal. rewrite len_concat, len_centralHeadersOf. reflexivity.
Qed.

Lemma localSection_split es : forall i e,
  nth_error es i = Some e ->
  localSection es
  = localSection (firstn i es) ++ (localHeaderOf e ++ finalData e)
    ++ localSection (skipn (S i) es).
Proof.
  unfold localSection. induction es as [|e0 es IH]; intros [|i] e H; simpl in H; try discriminate.
  - injection H as ->. reflexivity.
  - cbn [firstn skipn map concat]. rewrite (IH i e H), <- !app_assoc. reflexivity.
Qed.

Lemma centralSection_split es : forall i e offset,
  nth_error es i = Some e ->
  centralSection es offset
  = centralSection (firstn i es) offset
    ++ centralHeaderOf e (offset + localTotal (firstn i es))
    ++ centralSection (skipn (S i) es) (offset + localTotal (firstn (S i) es)).
Proof.
  unfold centralSection, localTotal.
  induction es as [|e0 es IH]; intros [|i] e offset H; simpl in H; try discriminate.
  - injection H as ->. cbn [firstn skipn map concat centralHeadersOf sumZ app].
    rewrite !Z.add_0_r. reflexivity.
  - cbn [firstn skipn map concat centralHeadersOf sumZ].
    rewrite (IH i e _ H), <- !app_assoc, !Z.add_assoc. reflexivity.
Qed.

(** The archive around the local header and the stored data of entry [i]. *)
Lemma archive_local_at es i e :
  nth_error es i = Some e ->
  exists before rest,
    len before = localOffset es i /\
    archive es = before ++ localHeaderOf e ++ finalData e ++ rest.
Proof.
  intros H. exists (localSection (firstn i es)). eexists. split.
  - rewrite len_localSection, localOffset_firstn. reflexivity.
  - unfold archive. rewrite (localSection_split es i e H), <- !app_assoc. reflexivity.
Qed.

(** The archive around the central directory header of entry [i]. *)
Lemma archive_central_at es i e :
  nth_error es i = Some e ->
  exists before rest,
    len before = centralOffset es i /\
    archive es = before ++ centralHeaderOf e (localOffset es i) ++ rest.
Proof.
  intros H. exists (localSection es ++ centralSection (firstn i es) 0). eexists. split.
  - rewrite len_app, len_localSection, len_centralSection. reflexivity.
  - unfold archive. rewrite (centralSection_split es i e 0 H), Z.add_0_l.
    rewrite localOffset_firstn, <- !app_assoc. reflexivity.
Qed.

(** The end record closes the archive. *)
Lemma archive_eocd_at es :
  exists before,
    len before = localTotal es + centralTotal es /\
    archive es = before ++ Layout.eocd (len es) (centralTotal es) (localTotal es).
Proof.
  exists (localSection es ++ centralSection es 0). split.
  - rewrite len_app, len_localSection, len_centralSection. reflexivity.
  - unfold archive. rewrite <- app_assoc. reflexivity.
Qed.

(** ** When the loop ends normally, and when it throws *)

Section Outcome.

Variable deflateRawSync : Buffer -> option Buffer.

Lemma scan_entriesOf files : forall offset es,
  scan deflateRawSync files offset = Ok es -> entriesOf deflateRawSync files = Some es.
Proof.
  induction files as [|f files IH]; intros offset es H; simpl in *.
  - injection H as <-. reflexivity.
  - destruct (candidate deflateRawSync f) as [c|]; [|discriminate].
    destruct (entryFits (mkEntry f c) offset); [|discriminate].
    destruct (scan deflateRawSync files _) as [es'|] eqn:E; [|discriminate].
    injection H as <-. rewrite (IH _ _ E). reflexivity.
Qed.

Lemma scan_fits files : forall offset es i e,
  scan deflateRawSync files offset = Ok es -> nth_error es i = Some e ->
  entryFits e (offset + localOffset es i) = true.
Proof.
  intros offset es i e Hs Hi. rewrite localOffset_firstn. revert offset es i e Hs Hi.
  induction files as [|f files IH]; intros offset es i e H Hi; simpl in H.
  - injection H as <-. destruct i; discriminate.
  - destruct (candidate deflateRawSync f) as [c|]; [|discriminate].
    destruct (entryFits (mkEntry f c) offset) eqn:Hfit; [|discriminate].
    destruct (scan deflateRawSync files _) as [es'|] eqn:E; [|discriminate].
    injection H as <-. destruct i as [|i]; simpl in Hi.
    + injection Hi as <-. unfold localTotal. simpl. rewrite Z.add_0_r. exact Hfit.
    + specialize (IH _ _ _ _ E Hi). unfold localTotal in *. cbn [firstn map sumZ].
      rewrite Z.add_assoc. exact IH.
Qed.

Lemma entriesOf_nth files : forall es i e,
  entriesOf deflateRawSync files = Some es -> nth_error es i = Some e ->
  nth_error files i = Some (e_file e)
  /\ candidate deflateRawSync (e_file e) = Some (e_compressed e).
Proof.
  induction files as [|f files IH]; intros es i e H Hi; simpl in H.
  - injection H as <-. destruct i; discriminate.
  - destruct (candidate deflateRawSync f) as [c|] eqn:Hc; [|discriminate].
    destruct (entriesOf deflateRawSync files) as [es'|]; [|discriminate].
    injection H as <-. destruct i as [|i]; simpl in Hi.
    + injection Hi as <-. simpl. split; [reflexivity | exact Hc].
    + simpl. eapply IH; [reflexivity | exact Hi].
Qed.

Lemma entriesOf_length files : forall es,
  entriesOf deflateRawSync files = Some es -> length es = length files.
Proof.
  induction files as [|f files IH]; intros es H; simpl in H.
  - injection H as <-. reflexivity.
  - destruct (candidate deflateRawSync f) as [c|]; [|discriminate].
    destruct (entriesOf deflateRawSync files) as [es'|]; [|discriminate].
    injection H as <-. simpl. f_equal. apply IH. reflexivity.
Qed.

(** The loop throws nothing but a value range error or the failure of deflate. *)
Lemma scan_throws files : forall offset x,
  scan deflateRawSync files offset = Throw x ->
  x = ValueOutOfRange
  \/ (x = DeflateFailure
      /\ exists f, In f files /\ compress f = true /\ deflateRawSync (data f) = None).
Proof.
  induction files as [|f files IH]; intros offset x H; simpl in H; [discriminate|].
  destruct (candidate deflateRawSync f) as [c|] eqn:Hc.
  - destruct (entryFits (mkEntry f c) offset).
    + destruct (scan deflateRawSync files _) as [es'|y] eqn:E; [discriminate|].
      injection H as <-. destruct (IH _ _ E) as [Hy|(Hy & g & Hin & Hg)].
      * left. exact Hy.
      * right. split; [exact Hy|]. exists g. split; [right; exact Hin | exact Hg].
    + injection H as <-. left. reflexivity.
  - injection H as <-. right. split; [reflexivity|]. exists f.
    unfold candidate in Hc. destruct (compress f); [|discriminate].
    split; [left; reflexivity | split; [reflexivity | exact Hc]].
Qed.

Lemma scan_deflate_fails files f : forall offset,
  In f files -> compress f = true -> deflateRawSync (data f) = None ->
  exists x, scan deflateRawSync files offset = Throw x.
Proof.
  induction files as [|g files IH]; intros offset Hin Hc Hd; [destruct Hin|].
  simpl. destruct (candidate deflateRawSync g) as [c|] eqn:Hg; [|eexists; reflexivity].
  destruct (entryFits (mkEntry g c) offset); [|eexists; reflexivity].
  destruct Hin as [->|Hin].
  - unfold candidate in Hg. rewrite Hc, Hd in Hg. discriminate.
  - destruct (IH (offset + localSize (mkEntry g c)) Hin Hc Hd) as [x Hx].
    rewrite Hx. eexists; reflexivity.
Qed.


Lemma scan_complete files : forall offset es,
  entriesOf deflateRawSync files = Some es ->
  forallb (fun e => (len (data (e_file e)) <=? 0xFFFFFFFF)
                    && (len (nameBytes e) <=? 0xFFFF)) es = true ->
  offset + localTotal es <= 0xFFFFFFFF ->
  scan deflateRawSync files offset = Ok es.
Proof.
  induction files as [|f files IH]; intros offset es H Hall Htot; simpl in H.
  - injection H as <-. reflexivity.
  - simpl. destruct (candidate deflateRawSync f) as [c|]; [|discriminate].
    destruct (entriesOf deflateRawSync files) as [es'|]; [|discriminate].
    injection H as <-. cbn [forallb] in Hall. apply andb_true_iff in Hall.
    destruct Hall as [He Hall].
    unfold localTotal in Htot. cbn [map sumZ] in Htot. fold (localTotal es') in Htot.
    pose proof (localTotal_nonneg es') as Hnn.
    pose proof (localSize_pos (mkEntry f c)) as Hpos.
    unfold entryFits. rewrite He. cbn [andb].
    destruct (Z.leb_spec offset 4294967295) as [_|Hbad]; [|lia].
    rewrite (IH _ es' eq_refl Hall); [reflexivity | lia].
Qed.

Lemma createZipBuffer_returns files st out st' :
  cache_ok st ->
  createZipBuffer deflateRawSync files st = (Ok out, st') ->
  exists es, scan deflateRawSync files 0 = Ok es
             /\ eocdFits es = true /\ out = archive es.
Proof.
  intros Hst H.
  destruct (createZipBuffer_eval deflateRawSync files st Hst) as (st'' & _ & Heq).
  rewrite Heq in H. injection H as Hout _. unfold outcome in Hout.
  destruct (scan deflateRawSync files 0) as [es|]; [|discriminate].
  destruct (eocdFits es) eqn:Hfit; [|discriminate].
  injection Hout as <-. exists es.
  split; [reflexivity | split; [exact Hfit | reflexivity]].
Qed.

End Outcome.

Lemma localOffset_nonneg es i : 0 <= localOffset es i.
Proof. rewrite localOffset_firstn. apply localTotal_nonneg. Qed.

Lemma archive_entry_written es i e :
  nth_error es i = Some e -> entryFits e (localOffset es i) = true ->
  entry_written (archive es) es i e.
Proof.
  intros Hi Hfit. unfold entryFits in Hfit.
  apply andb_true_iff in Hfit. destruct Hfit as [Hfit Ho].
  apply andb_true_iff in Hfit. destruct Hfit as [Hd Hn].
  apply Z.leb_le in Hd, Hn, Ho.
  pose proof (localOffset_nonneg es i) as Hlo.
  pose proof (method_range e) as Hm.
  pose proof (crc32_range (data (e_file e))) as Hcrc.
  pose proof (len_finalData_le e) as Hfd.
  pose proof (len_nonneg (finalData e)) as Hfd0.
  pose proof (len_nonneg (data (e_file e))) as Hd0.
  pose proof (len_nonneg (nameBytes e)) as Hn0.
  unfold entry_written. cbv zeta. split.
  - destruct (archive_local_at es i e Hi) as (before & rest & Hlen & ->).
    destruct (localHeader_fields (method e) (Ref.crc32 (data (e_file e)))
                (len (finalData e)) (len (data (e_file e))) (nameBytes e)
                (finalData e ++ rest))
      as (F0 & _ & _ & F8 & _ & _ & F14 & F18 & F22 & F26 & _ & Fn); try lia.
    fold (localHeaderOf e) in F0, F8, F14, F18, F22, F26, Fn.
    rewrite <- Hlen. rewrite <- (Z.add_0_r (len before)) at 1.
    rewrite !readUInt32LE_shift, !readUInt16LE_shift, subarray_shift by lia.
    repeat (split; [assumption|]).
    rewrite app_assoc, <- Z.add_assoc. apply subarray_middle.
    rewrite len_app, len_localHeaderOf. reflexivity.
  - destruct (archive_central_at es i e Hi) as (before & rest & Hlen & ->).
    destruct (centralHeader_fields (method e) (Ref.crc32 (data (e_file e)))
                (len (finalData e)) (len (data (e_file e))) (localOffset es i)
                (nameBytes e) rest)
      as (F0 & _ & _ & _ & F10 & _ & _ & F16 & F20 & F24 & F28 & _ & _ & _ & _ & _
          & F42 & Fn); try lia.
    fold (centralHeaderOf e (localOffset es i)) in F0, F10, F16, F20, F24, F28, F42, Fn.
    rewrite <- Hlen. rewrite <- (Z.add_0_r (len before)) at 1.
    rewrite !readUInt32LE_shift, !readUInt16LE_shift, subarray_shift by lia.
    repeat (split; [assumption|]). assumption.
Qed.

(** Every entry of an archive that [createZipBuffer] returns is written
    as above. *)
Lemma returned_entry_written deflateRawSync files st out st' es i e :
  cache_ok st ->
  createZipBuffer deflateRawSync files st = (Ok out, st') ->
  entriesOf deflateRawSync files = Some es ->
  nth_error es i = Some e ->
  entry_written out es i e.
Proof.
  intros Hst Hret Hes Hi.
  destruct (createZipBuffer_returns _ _ _ _ _ Hst Hret) as (es' & Hscan & _ & ->).
  pose proof (scan_entriesOf _ _ _ _ Hscan) as Hes'.
  rewrite Hes in Hes'. injection Hes' as <-.
  apply archive_entry_written; [exact Hi|].
  pose proof (scan_fits _ _ _ _ _ _ Hscan Hi) as Hfit.
  rewrite Z.add_0_l in Hfit. exact Hfit.
Qed.

(** [createZipBuffer] returns the archive when no call of deflate throws
    and every field is in range. *)
Lemma createZipBuffer_produces deflateRawSync files st es :
  cache_ok st ->
  entriesOf deflateRawSync files = Some es -> fits es = true ->
  exists st', createZipBuffer deflateRawSync files st = (Ok (archive es), st').
Proof.
  intros Hst Hes Hfit.
  unfold fits in Hfit. apply andb_true_iff in Hfit. destruct Hfit as [Hall Hfit].
  destruct (createZipBuffer_eval deflateRawSync files st Hst) as (st' & _ & Heq).
  exists st'. rewrite Heq. unfold outcome.
  rewrite (scan_complete deflateRawSync files 0 es Hes Hall), Hfit; [reflexivity|].
  unfold eocdFits in Hfit. apply andb_true_iff in Hfit. destruct Hfit as [_ Hl].
  apply Z.leb_le in Hl. lia.
Qed.

Example addFile_mimetype :
  addFile [] (literal "mimetype"%string)
    (Text (literal "application/epub+zip"%string)) (Some false) = [mimetype].
Proof. reflexivity. Qed.

Example crc32_check_value : fst (crc32 (literal "123456789"%string) None) = 0xCBF43926.
Proof. vm_compute. reflexivity. Qed.

Example example_returns :
  createZipBuffer exampleDeflate exampleFiles None
  = (Ok exampleArchive, Some crc32Table_build).
Proof. vm_compute. reflexivity. Qed.

(** ** CRC-32 *)

(** C1: [crc32] is the table-driven IEEE CRC-32. The table [getCrc32Table]
    hands out is the 256-entry reference table (entry i: start from i and,
    eight times, shift right by one, XORing with 0xEDB88320 when the low bit
    was set), and for every byte sequence the result of [crc32] is the
    reference checksum: accumulator from 0xFFFFFFFF, updated per byte as
    (acc >> 8) XOR table[(acc XOR byte) & 0xFF], finally XORed with
    0xFFFFFFFF and read as an unsigned 32-bit integer. *)
Theorem crc32_matches_reference (buffer : Buffer) (st : Cache) :
  cache_ok st ->
  fst (getCrc32Table st) = Ref.table
  /\ length (fst (getCrc32Table st)) = 256%nat
  /\ fst (crc32 buffer st) = Ref.crc32 buffer.
Proof.
  intros Hst. split; [|split].
  - rewrite (getCrc32Table_ok st Hst). reflexivity.
  - rewrite (getCrc32Table_ok st Hst). reflexivity.
  - rewrite (crc32_value buffer st Hst). reflexivity.
Qed.

Lemma crc32_matches_reference_witness :
  cache_ok None
  /\ fst (getCrc32Table None) = Ref.table
  /\ length (fst (getCrc32Table None)) = 256%nat
  /\ fst (crc32 (literal "123456789"%string) None) = Ref.crc32 (literal "123456789"%string).
Proof.
  assert (H : cache_ok None) by (left; reflexivity).
  split; [exact H|].
  exact (crc32_matches_reference (literal "123456789"%string) None H).
Defined.

(** C9: [crc32] has no error condition: for every byte sequence, the empty
    one included, and whatever the cache holds, it returns an unsigned
    32-bit integer; for the empty sequence that integer is 0. *)
Theorem crc32_total_empty_zero :
  (forall (buffer : Buffer) (st : Cache), 0 <= fst (crc32 buffer st) < 2 ^ 32)
  /\ (forall st : Cache, fst (crc32 [] st) = 0).
Proof.
  split.
  - intros buffer st. unfold crc32. destruct (getCrc32Table st) as [table st'].
    cbn [fst]. unfold JS.ushr. change (JS.ToUint32 0 mod 32) with 0.
    rewrite Z.shiftr_0_r. apply ToUint32_range.
  - intros [table|]; reflexivity.
Qed.

(** ** The archive writer *)

(** C8: for the empty list of files [createZipBuffer] returns exactly the
    22 octets of one end-of-central-directory record, whose two entry
    counts, central directory size and central directory offset are 0. *)
Theorem createZipBuffer_empty (deflateRawSync : Buffer -> option Buffer) (st : Cache) :
  let out := [80; 75; 5; 6; 0; 0; 0; 0; 0; 0; 0; 0; 0; 0; 0; 0; 0; 0; 0; 0; 0; 0] in
  createZipBuffer deflateRawSync [] st = (Ok out, st)
  /\ len out = 22
  /\ out = Layout.eocd 0 0 0
  /\ readUInt32LE out 0 = 0x06054b50
  /\ readUInt16LE out 8 = 0 /\ readUInt16LE out 10 = 0
  /\ readUInt32LE out 12 = 0 /\ readUInt32LE out 16 = 0.
Proof. cbv zeta. repeat split. Qed.

(** C2, as claimed, fails: with a deflate that throws, a single file with
    [compress = true] makes [createZipBuffer] throw; no archive is returned
    and nothing is stored uncompressed. *)
Lemma deflate_failure_not_recovered :
  compress (mkFile (literal "a.txt"%string) (literal "hello"%string) true) = true
  /\ failingDeflate (data (mkFile (literal "a.txt"%string) (literal "hello"%string) true)) = None
  /\ createZipBuffer failingDeflate
       [mkFile (literal "a.txt"%string) (literal "hello"%string) true] None
     = (Throw DeflateFailure, None)
  /\ ~ (exists out st',
          createZipBuffer failingDeflate
            [mkFile (literal "a.txt"%string) (literal "hello"%string) true] None
          = (Ok out, st')).
Proof.
  repeat split. intros (out & st' & H). vm_compute in H. discriminate H.
Qed.

(** C2, amended: when deflate throws on a file with [compress = true], the
    exception is not caught: [createZipBuffer] throws (the failure of
    deflate, or the range error of an earlier write) and returns no archive. *)
Theorem deflate_failure_propagates
    (deflateRawSync : Buffer -> option Buffer) (files : list File) (f : File) (st : Cache) :
  cache_ok st ->
  In f files -> compress f = true -> deflateRawSync (data f) = None ->
  exists x st',
    createZipBuffer deflateRawSync files st = (Throw x, st')
    /\ (x = DeflateFailure \/ x = ValueOutOfRange).
Proof.
  intros Hst Hin Hc Hd.
  destruct (createZipBuffer_eval deflateRawSync files st Hst) as (st' & _ & Heq).
  destruct (scan_deflate_fails deflateRawSync files f 0 Hin Hc Hd) as [x Hx].
  exists x, st'. split.
  - rewrite Heq. unfold outcome. rewrite Hx. reflexivity.
  - destruct (scan_throws _ _ _ _ Hx) as [->|[-> _]]; [right|left]; reflexivity.
Qed.

Lemma deflate_failure_propagates_witness :
  exists x st',
    createZipBuffer failingDeflate
      [mimetype; mkFile (literal "a.txt"%string) (literal "hello"%string) true] None
    = (Throw x, st')
    /\ (x = DeflateFailure \/ x = ValueOutOfRange).
Proof.
  apply (deflate_failure_propagates failingDeflate
           [mimetype; mkFile (literal "a.txt"%string) (literal "hello"%string) true]
           (mkFile (literal "a.txt"%string) (literal "hello"%string) true) None).
  - left. reflexivity.
  - right. left. reflexivity.
  - reflexivity.
  - reflexivity.
Defined.

(** C3: whenever no call of deflate throws and every field is in range,
    [createZipBuffer] returns an archive, and in it the i-th entry holds the
    deflated candidate exactly when the file has [compress = true] and the
    candidate is strictly shorter than the payload, and the payload itself
    otherwise. The method field of both headers is 8 in the first case and 0
    in the second; with [compress = true] the compressed-size field is at
    most the uncompressed-size field, and when the candidate is not strictly
    shorter the method is 0 and the two sizes are equal. *)
Theorem compression_selection
    (deflateRawSync : Buffer -> option Buffer) (files : list File) (st : Cache)
    (es : list Entry) (i : nat) (e : Entry) :
  cache_ok st ->
  entriesOf deflateRawSync files = Some es ->
  fits es = true ->
  nth_error es i = Some e ->
  exists out st',
    createZipBuffer deflateRawSync files st = (Ok out, st')
    /\ let f := e_file e in
       let compressed := e_compressed e in
       let shorter := compress f && (len compressed <? len (data f)) in
       let lo := localOffset es i in
       let co := centralOffset es i in
       nth_error files i = Some f
       /\ (if compress f then deflateRawSync (data f) = Some compressed
           else compressed = data f)
       /\ subarray out (lo + 30 + readUInt16LE out (lo + 26)) (readUInt32LE out (lo + 18))
          = (if shorter then compressed else data f)
       /\ readUInt16LE out (lo + 8) = (if shorter then 8 else 0)
       /\ readUInt16LE out (co + 10) = (if shorter then 8 else 0)
       /\ readUInt32LE out (lo + 18) = len (if shorter then compressed else data f)
       /\ readUInt32LE out (co + 20) = len (if shorter then compressed else data f)
       /\ readUInt32LE out (lo + 22) = len (data f)
       /\ readUInt32LE out (co + 24) = len (data f)
       /\ (compress f = true ->
           readUInt32LE out (lo + 18) <= readUInt32LE out (lo + 22)
           /\ readUInt32LE out (co + 20) <= readUInt32LE out (co + 24))
       /\ (compress f = true -> len (data f) <= len compressed ->
           readUInt16LE out (lo + 8) = 0 /\ readUInt16LE out (co + 10) = 0
           /\ readUInt32LE out (lo + 18) = readUInt32LE out (lo + 22)
           /\ readUInt32LE out (co + 20) = readUInt32LE out (co + 24)).
Proof.
  intros Hst Hes Hfit Hi.
  destruct (createZipBuffer_produces deflateRawSync files st es Hst Hes Hfit)
    as [st' Hret].
  exists (archive es), st'. split; [exact Hret|]. cbv zeta.
  destruct (returned_entry_written _ _ _ _ _ _ _ _ Hst Hret Hes Hi)
    as ((_ & L8 & _ & L18 & L22 & L26 & _ & Ld) & (_ & C10 & _ & C20 & C24 & _)).
  destruct (entriesOf_nth _ _ _ _ _ Hes Hi) as [Hf Hc].
  rewrite L8, L18, L22, L26, C10, C20, C24.
  pose proof (len_finalData_le e) as Hle.
  unfold method, finalData, useCompression in *.
  repeat split; try assumption; try lia.
  - unfold candidate in Hc. destruct (compress (e_file e)); [exact Hc|].
    injection Hc as Hc. symmetry. exact Hc.
  - destruct (Z.ltb_spec (len (e_compressed e)) (len (data (e_file e)))); [lia|].
    rewrite andb_false_r. reflexivity.
  - destruct (Z.ltb_spec (len (e_compressed e)) (len (data (e_file e)))); [lia|].
    rewrite andb_false_r. reflexivity.
  - destruct (Z.ltb_spec (len (e_compressed e)) (len (data (e_file e)))); [lia|].
    rewrite andb_false_r. reflexivity.
  - destruct (Z.ltb_spec (len (e_compressed e)) (len (data (e_file e)))); [lia|].
    rewrite andb_false_r. reflexivity.
Qed.

Lemma compression_selection_witness :
  (exists out st',
     createZipBuffer exampleDeflate exampleFiles None = (Ok out, st')
     /\ readUInt16LE out (localOffset exampleEntries 1 + 8) = 8
     /\ subarray out (localOffset exampleEntries 1 + 30
                      + readUInt16LE out (localOffset exampleEntries 1 + 26))
          (readUInt32LE out (localOffset exampleEntries 1 + 18))
        = literal "<pack"%string)
  /\ (exists out st',
        createZipBuffer runDeflate helloFiles None = (Ok out, st')
        /\ subarray out (localOffset helloEntries 1 + 30
                         + readUInt16LE out (localOffset helloEntries 1 + 26))
             (readUInt32LE out (localOffset helloEntries 1 + 18))
           = literal "hello"%string
        /\ readUInt16LE out (localOffset helloEntries 1 + 8) = 0
        /\ readUInt32LE out (localOffset helloEntries 1 + 18)
           = readUInt32LE out (localOffset helloEntries 1 + 22)).
Proof.
  assert (H0 : cache_ok None) by (left; reflexivity).
  split.
  - assert (F : fits exampleEntries = true) by (vm_compute; reflexivity).
    destruct (compression_selection exampleDeflate exampleFiles None exampleEntries
                1 _ H0 eq_refl F eq_refl)
      as (out & st' & Hret & _ & _ & Hd & Hm & _).
    exists out, st'. split; [exact Hret | split; [exact Hm | exact Hd]].
  - assert (F : fits helloEntries = true) by (vm_compute; reflexivity).
    destruct (compression_selection runDeflate helloFiles None helloEntries
                1 _ H0 eq_refl F eq_refl)
      as (out & st' & Hret & _ & _ & Hd & _ & _ & _ & _ & _ & _ & _ & Hn).
    assert (Hle : len (literal "hello"%string) <= len (0 :: literal "hello"%string))
      by (vm_compute; discriminate).
    destruct (Hn eq_refl Hle) as (M0 & _ & S0 & _).
    exists out, st'.
    split; [exact Hret | split; [exact Hd | split; [exact M0 | exact S0]]].
Defined.





(** C6: an archive that [createZipBuffer] returns is the concatenation, in
    input order, of each entry's local header and stored data, then of all
    central directory headers in input order, then of one 22-octet
    end-of-central-directory record. Read back, the fields of that record
    are: signature 0x06054b50, disk number 0, disk with the central
    directory 0, both entry counts the number of files, the size of the
    central directory (the sum of the lengths of the central headers), the
    offset of the central directory (the length of the local part), and
    comment length 0. Conversely the archive is returned whenever no call of
    deflate throws and every field is in range. *)
Theorem archive_layout
    (deflateRawSync : Buffer -> option Buffer) (files : list File) (st : Cache) :
  cache_ok st ->
  (forall out st',
     createZipBuffer deflateRawSync files st = (Ok out, st') ->
     exists es,
       entriesOf deflateRawSync files = Some es
       /\ out = concat (map (fun e => localHeaderOf e ++ finalData e) es)
                ++ concat (centralHeadersOf es 0)
                ++ Layout.eocd (len files)
                     (sumZ (map len (centralHeadersOf es 0)))
                     (len (concat (map (fun e => localHeaderOf e ++ finalData e) es)))
       /\ len out = len (concat (map (fun e => localHeaderOf e ++ finalData e) es))
                    + sumZ (map len (centralHeadersOf es 0)) + 22
       /\ (let p := len out - 22 in
           readUInt32LE out p = 0x06054b50
           /\ readUInt16LE out (p + 4) = 0
           /\ readUInt16LE out (p + 6) = 0
           /\ readUInt16LE out (p + 8) = len files
           /\ readUInt16LE out (p + 10) = len files
           /\ readUInt32LE out (p + 12) = sumZ (map len (centralHeadersOf es 0))
           /\ readUInt32LE out (p + 16)
              = len (concat (map (fun e => localHeaderOf e ++ finalData e) es))
           /\ readUInt16LE out (p + 20) = 0))
  /\ (forall es,
        entriesOf deflateRawSync files = Some es -> fits es = true ->
        exists st', createZipBuffer deflateRawSync files st = (Ok (archive es), st')).
Proof.
  intros Hst. split.
  - intros out st' Hret.
    destruct (createZipBuffer_returns _ _ _ _ _ Hst Hret) as (es & Hscan & Hfit & ->).
    exists es. split; [exact (scan_entriesOf _ _ _ _ Hscan)|].
    assert (Hlen : len files = len es)
      by (unfold len; rewrite (scan_length _ _ _ _ Hscan); reflexivity).
    fold (localSection es). rewrite len_centralHeadersOf, len_localSection, Hlen.
    fold (centralTotal es). fold (centralSection es 0).
    split; [reflexivity|].
    unfold eocdFits in Hfit.
    apply andb_true_iff in Hfit. destruct Hfit as [Hfit Hl].
    apply andb_true_iff in Hfit. destruct Hfit as [Hn Hc].
    apply Z.leb_le in Hn, Hc, Hl.
    pose proof (len_nonneg es) as Hn0.
    pose proof (localTotal_nonneg es) as Hl0.
    assert (Hc0 : 0 <= centralTotal es)
      by (rewrite <- (len_centralSection es 0); apply len_nonneg).
    destruct (eocd_fields (len es) (centralTotal es) (localTotal es))
      as (E & E0 & E4 & E6 & E8 & E10 & E12 & E16 & E20); try lia.
    destruct (archive_eocd_at es) as (before & Hb & ->).
    cbv zeta. rewrite len_app, E.
    split; [lia|].
    replace (len before + 22 - 22) with (len before) by lia.
    rewrite <- (Z.add_0_r (len before)) at 1.
    rewrite !readUInt32LE_shift, !readUInt16LE_shift by lia.
    repeat (split; [assumption|]). assumption.
  - intros es Hes Hfit.
    unfold fits in Hfit. apply andb_true_iff in Hfit. destruct Hfit as [Hall Hfit].
    destruct (createZipBuffer_eval deflateRawSync files st Hst) as (st' & _ & Heq).
    exists st'. rewrite Heq. unfold outcome.
    rewrite (scan_complete deflateRawSync files 0 es Hes Hall), Hfit; [reflexivity|].
    unfold eocdFits in Hfit. apply andb_true_iff in Hfit. destruct Hfit as [_ Hl].
    apply Z.leb_le in Hl. lia.
Qed.

Lemma archive_layout_witness :
  cache_ok None
  /\ (exists es,
        entriesOf exampleDeflate exampleFiles = Some es
        /\ exampleArchive
           = concat (map (fun e => localHeaderOf e ++ finalData e) es)
             ++ concat (centralHeadersOf es 0)
             ++ Layout.eocd 2 (sumZ (map len (centralHeadersOf es 0)))
                  (len (concat (map (fun e => localHeaderOf e ++ finalData e) es))))
  /\ (exists st',
        createZipBuffer exampleDeflate exampleFiles None
        = (Ok (archive exampleEntries), st')).
Proof.
  assert (H0 : cache_ok None) by (left; reflexivity).
  assert (H1 : createZipBuffer exampleDeflate exampleFiles None
               = (Ok exampleArchive, Some crc32Table_build))
    by (vm_compute; reflexivity).
  split; [exact H0|]. split.
  - destruct (proj1 (archive_layout exampleDeflate exampleFiles None H0) _ _ H1)
      as (es & Hes & Hout & _).
    exists es. split; [exact Hes | exact Hout].
  - apply (proj2 (archive_layout exampleDeflate exampleFiles None H0) exampleEntries).
    + reflexivity.
    + vm_compute. reflexivity.
Defined.






(** * Part IV: further properties of the code *)

(** ** [escapeHtml] *)

Lemma flat_map_flat_map {A B C} (f : A -> list B) (g : B -> list C) (l : list A) :
  flat_map g (flat_map f l) = flat_map (fun x => flat_map g (f x)) l.
Proof.
  induction l as [|x l IH]; simpl; [reflexivity|].
  rewrite flat_map_app, IH. reflexivity.
Qed.

Lemma replaceAll_flat_map c r (f : Z -> JSString) (s : JSString) :
  replaceAll c r (flat_map f s) = flat_map (fun x => replaceAll c r (f x)) s.
Proof. unfold replaceAll at 1. rewrite flat_map_flat_map. reflexivity. Qed.

Lemma escape_passes_char c :
  replaceAll c_apos (literal "&#39;"%string)
    (replaceAll c_quot (literal "&quot;"%string)
       (replaceAll c_gt (literal "&gt;"%string)
          (replaceAll c_lt (literal "&lt;"%string)
             (replaceAll c_amp (literal "&amp;"%string) [c]))))
  = escapeChar c.
Proof.
  unfold escapeChar.
  destruct (Z.eqb_spec c c_amp) as [->|H1]; [reflexivity|].
  destruct (Z.eqb_spec c c_lt) as [->|H2]; [reflexivity|].
  destruct (Z.eqb_spec c c_gt) as [->|H3]; [reflexivity|].
  destruct (Z.eqb_spec c c_quot) as [->|H4]; [reflexivity|].
  destruct (Z.eqb_spec c c_apos) as [->|H5]; [reflexivity|].
  unfold replaceAll. cbn [flat_map app].
  apply Z.eqb_neq in H1, H2, H3, H4, H5.
  rewrite H1. cbn [flat_map app]. rewrite H2. cbn [flat_map app].
  rewrite H3. cbn [flat_map app]. rewrite H4. cbn [flat_map app].
  rewrite H5. reflexivity.
Qed.

Lemma escapeHtml_string s : escapeHtml (Str s) = flat_map escapeChar s.
Proof.
  destruct s as [|c s]; [reflexivity|].
  unfold escapeHtml. cbn [falsy toString].
  set (l := c :: s).
  assert (H : replaceAll c_amp (literal "&amp;"%string) l
              = flat_map (fun x => replaceAll c_amp (literal "&amp;"%string) [x]) l).
  { unfold replaceAll. apply flat_map_ext. intros x. simpl. rewrite app_nil_r. reflexivity. }
  rewrite H, !replaceAll_flat_map.
  apply flat_map_ext. intros x. apply escape_passes_char.
Qed.

Lemma escapeChar_shape c :
  (special c = true
   /\ exists tail, escapeChar c = c_amp :: tail /\ ~ In c_amp tail
                   /\ In (c_amp :: tail) entities
                   /\ forallb (fun x => negb (special x)) tail = true)
  \/ (special c = false /\ escapeChar c = [c]).
Proof.
  unfold escapeChar, special.
  destruct (Z.eqb_spec c c_amp) as [->|H1].
  { left. split; [reflexivity|]. eexists. split; [reflexivity|].
    split; [|split; [left; reflexivity | reflexivity]].
    vm_compute. intuition discriminate. }
  destruct (Z.eqb_spec c c_lt) as [->|H2].
  { left. split; [reflexivity|]. eexists. split; [reflexivity|].
    split; [|split; [right; left; reflexivity | reflexivity]].
    vm_compute. intuition discriminate. }
  destruct (Z.eqb_spec c c_gt) as [->|H3].
  { left. split; [reflexivity|]. eexists. split; [reflexivity|].
    split; [|split; [right; right; left; reflexivity | reflexivity]].
    vm_compute. intuition discriminate. }
  destruct (Z.eqb_spec c c_quot) as [->|H4].
  { left. split; [reflexivity|]. eexists. split; [reflexivity|].
    split; [|split; [right; right; right; left; reflexivity | reflexivity]].
    vm_compute. intuition discriminate. }
  destruct (Z.eqb_spec c c_apos) as [->|H5].
  { left. split; [reflexivity|]. eexists. split; [reflexivity|].
    split; [|split; [right; right; right; right; left; reflexivity | reflexivity]].
    vm_compute. intuition discriminate. }
  right. split; reflexivity.
Qed.

Lemma special_amp c : special c = false -> c <> c_amp.
Proof.
  unfold special. intros H ->. rewrite Z.eqb_refl in H. discriminate.
Qed.

Lemma app_split_free (x : Z) t : forall R pre post,
  ~ In x t -> t ++ R = pre ++ x :: post ->
  exists pre', pre = t ++ pre' /\ R = pre' ++ x :: post.
Proof.
  induction t as [|y t IH]; intros R pre post Hfree H.
  - exists pre. split; [reflexivity | exact H].
  - destruct pre as [|p pre]; simpl in H; injection H as Hy Ht.
    + exfalso. apply Hfree. left. exact Hy.
    + subst p. destruct (IH R pre post) as (pre' & -> & HR); [|exact Ht|].
      * intros Hin. apply Hfree. right. exact Hin.
      * exists pre'. split; [reflexivity | exact HR].
Qed.

Lemma amp_starts_entity s : forall pre post,
  flat_map escapeChar s = pre ++ c_amp :: post -> entityAt (c_amp :: post).
Proof.
  induction s as [|c s IH]; intros pre post H; simpl in H.
  - destruct pre; discriminate.
  - destruct (escapeChar_shape c) as [(_ & tail & Hc & Hfree & Hent & _) | (Hs & Hc)];
      rewrite Hc in H.
    + destruct pre as [|p pre]; simpl in H; injection H as Ht.
      * exists (c_amp :: tail), (flat_map escapeChar s).
        split; [exact Hent|]. simpl. rewrite Ht. reflexivity.
      * destruct (app_split_free _ _ _ _ _ Hfree H) as (pre' & _ & HR).
        exact (IH _ _ HR).
    + destruct pre as [|p pre]; simpl in H; injection H as Hp Ht.
      * exfalso. exact (special_amp c Hs Hp).
      * exact (IH _ _ Ht).
Qed.

Lemma escape_no_raw s :
  forallb (fun x => negb ((x =? c_lt) || (x =? c_gt) || (x =? c_quot) || (x =? c_apos)))
    (flat_map escapeChar s) = true.
Proof.
  induction s as [|c s IH]; [reflexivity|].
  simpl. rewrite forallb_app, IH, andb_true_r.
  unfold escapeChar.
  destruct (Z.eqb_spec c c_amp) as [->|H1]; [reflexivity|].
  destruct (Z.eqb_spec c c_lt) as [->|H2]; [reflexivity|].
  destruct (Z.eqb_spec c c_gt) as [->|H3]; [reflexivity|].
  destruct (Z.eqb_spec c c_quot) as [->|H4]; [reflexivity|].
  destruct (Z.eqb_spec c c_apos) as [->|H5]; [reflexivity|].
  apply Z.eqb_neq in H2, H3, H4, H5. simpl. rewrite H2, H3, H4, H5. reflexivity.
Qed.

Lemma escapeChar_head_inj c1 c2 r1 r2 :
  escapeChar c1 ++ r1 = escapeChar c2 ++ r2 -> c1 = c2 /\ r1 = r2.
Proof.
  unfold escapeChar.
  destruct (Z.eqb_spec c1 c_amp) as [->|A1];
    [|destruct (Z.eqb_spec c1 c_lt) as [->|A2];
      [|destruct (Z.eqb_spec c1 c_gt) as [->|A3];
        [|destruct (Z.eqb_spec c1 c_quot) as [->|A4];
          [|destruct (Z.eqb_spec c1 c_apos) as [->|A5]]]]];
  (destruct (Z.eqb_spec c2 c_amp) as [->|B1];
    [|destruct (Z.eqb_spec c2 c_lt) as [->|B2];
      [|destruct (Z.eqb_spec c2 c_gt) as [->|B3];
        [|destruct (Z.eqb_spec c2 c_quot) as [->|B4];
          [|destruct (Z.eqb_spec c2 c_apos) as [->|B5]]]]]);
  intros H; vm_compute in H; try discriminate H;
  try (injection H as H; split; [reflexivity | exact H]);
  try (injection H as H0 H; exfalso;
       first [ apply A1; rewrite H0; reflexivity | apply A2; rewrite H0; reflexivity
             | apply A3; rewrite H0; reflexivity | apply A4; rewrite H0; reflexivity
             | apply A5; rewrite H0; reflexivity
             | apply B1; rewrite <- H0; reflexivity | apply B2; rewrite <- H0; reflexivity
             | apply B3; rewrite <- H0; reflexivity | apply B4; rewrite <- H0; reflexivity
             | apply B5; rewrite <- H0; reflexivity ]).
  injection H as H0 H. split; assumption.
Qed.

Lemma escapeChar_nonempty c : escapeChar c <> [].
Proof.
  destruct (escapeChar_shape c) as [(_ & tail & -> & _) | (_ & ->)]; discriminate.
Qed.

Lemma flat_map_escapeChar_inj s1 : forall s2,
  flat_map escapeChar s1 = flat_map escapeChar s2 -> s1 = s2.
Proof.
  induction s1 as [|c1 s1 IH]; intros [|c2 s2] H; simpl in H.
  - reflexivity.
  - exfalso. symmetry in H. apply app_eq_nil in H. exact (escapeChar_nonempty c2 (proj1 H)).
  - exfalso. apply app_eq_nil in H. exact (escapeChar_nonempty c1 (proj1 H)).
  - destruct (escapeChar_head_inj _ _ _ _ H) as [-> Hr]. f_equal. exact (IH _ Hr).
Qed.

Lemma escape_plain s :
  forallb (fun c => negb (special c)) s = true -> flat_map escapeChar s = s.
Proof.
  induction s as [|c s IH]; intros H; [reflexivity|].
  simpl in H. apply andb_true_iff in H. destruct H as [Hc Hs].
  simpl. rewrite (IH Hs).
  destruct (escapeChar_shape c) as [(Hsp & _) | (_ & ->)]; [|reflexivity].
  rewrite Hsp in Hc. discriminate.
Qed.

Lemma escape_length s :
  (length s <= length (flat_map escapeChar s))%nat
  /\ (length (flat_map escapeChar s) = length s ->
      forallb (fun c => negb (special c)) s = true).
Proof.
  induction s as [|c s [IH1 IH2]]; [split; reflexivity|].
  simpl. rewrite length_app.
  destruct (escapeChar_shape c) as [(Hsp & tail & Hc & _ & Hent & _) | (Hsp & Hc)];
    rewrite Hc, Hsp; simpl.
  - assert (Htail : (1 <= length tail)%nat).
    { unfold entities in Hent. simpl in Hent.
      destruct Hent as [E|[E|[E|[E|[E|[]]]]]]; injection E as <-; simpl; lia. }
    split; [lia|]. intros H. lia.
  - split; [lia|]. intros H. apply IH2. lia.
Qed.

(** X1: the five replacements of [escapeHtml], made one after the other,
    amount to one simultaneous substitution: each ampersand, less-than,
    greater-than, double quote and single quote of the string becomes its
    entity, every other code unit is kept, and the ampersands of the
    entities themselves are not escaped again. *)
Theorem escapeHtml_simultaneous (s : JSString) :
  escapeHtml (Str s) = flat_map escapeChar s.
Proof. exact (escapeHtml_string s). Qed.

(** X2: escaping a concatenation is concatenating the escapes. *)
Theorem escapeHtml_concat (a b : JSString) :
  escapeHtml (Str (a ++ b)) = escapeHtml (Str a) ++ escapeHtml (Str b).
Proof. rewrite !escapeHtml_string. apply flat_map_app. Qed.

(** X3: the result of [escapeHtml] holds no less-than, greater-than, double
    quote or single quote. *)
Theorem escapeHtml_no_raw_markup (v : JSValue) :
  forallb (fun x => negb ((x =? c_lt) || (x =? c_gt) || (x =? c_quot) || (x =? c_apos)))
    (escapeHtml v) = true.
Proof.
  destruct v as [| |s]; try reflexivity.
  rewrite escapeHtml_string. apply escape_no_raw.
Qed.

(** X4: every ampersand in the result of [escapeHtml] begins one of the
    five entities. *)
Theorem escapeHtml_ampersand_entity (v : JSValue) (pre post : JSString) :
  escapeHtml v = pre ++ c_amp :: post -> entityAt (c_amp :: post).
Proof.
  destruct v as [| |s]; intros H.
  - destruct pre; discriminate.
  - destruct pre; discriminate.
  - rewrite escapeHtml_string in H. exact (amp_starts_entity s pre post H).
Qed.

Lemma escapeHtml_ampersand_entity_witness :
  entityAt (c_amp :: literal "amp;c"%string).
Proof.
  apply (escapeHtml_ampersand_entity (Str (literal "a<b&c"%string))
           (literal "a&lt;b"%string) (literal "amp;c"%string)).
  reflexivity.
Defined.

(** X5: [escapeHtml] loses nothing: two strings with the same escape are
    the same string. *)
Theorem escapeHtml_injective (s1 s2 : JSString) :
  escapeHtml (Str s1) = escapeHtml (Str s2) -> s1 = s2.
Proof. rewrite !escapeHtml_string. apply flat_map_escapeChar_inj. Qed.

Lemma escapeHtml_injective_witness :
  literal "a<b"%string = literal "a<b"%string.
Proof.
  apply (escapeHtml_injective (literal "a<b"%string) (literal "a<b"%string)).
  reflexivity.
Defined.

(** X6: [escapeHtml] returns a string unchanged exactly when the string
    holds none of the five characters; so escaping twice differs from
    escaping once as soon as one of them occurs. *)
Theorem escapeHtml_unchanged_iff_plain (s : JSString) :
  escapeHtml (Str s) = s <-> forallb (fun c => negb (special c)) s = true.
Proof.
  rewrite escapeHtml_string. split.
  - intros H. apply (proj2 (escape_length s)). rewrite H. reflexivity.
  - apply escape_plain.
Qed.

Lemma escapeHtml_unchanged_iff_plain_witness :
  escapeHtml (Str (literal "plain text"%string)) = literal "plain text"%string.
Proof.
  apply (proj2 (escapeHtml_unchanged_iff_plain (literal "plain text"%string))).
  reflexivity.
Defined.

(** X7: [escapeHtml] returns the empty string exactly for the falsy
    values: [undefined], [null] and the empty string. *)
Theorem escapeHtml_empty_iff_falsy (v : JSValue) :
  escapeHtml v = [] <-> falsy v = true.
Proof.
  destruct v as [| |[|c s]]; try (split; reflexivity).
  rewrite escapeHtml_string. cbn [flat_map falsy]. split; [|discriminate].
  intros H. apply app_eq_nil in H. exfalso. exact (escapeChar_nonempty c (proj1 H)).
Qed.

Lemma escapeHtml_empty_iff_falsy_witness : escapeHtml Undefined = [].
Proof. apply (proj2 (escapeHtml_empty_iff_falsy Undefined)). reflexivity. Defined.

(** ** [addFile] and [createZipBuffer] *)

Lemma addFiles_head calls : forall f files,
  exists rest, addFiles calls (f :: files) = f :: rest.
Proof.
  unfold addFiles.
  induction calls as [|[[n c] z] calls IH]; intros f files; simpl.
  - exists files. reflexivity.
  - unfold addFile at 2. simpl. apply IH.
Qed.

Lemma scan_first deflateRawSync f rest es :
  compress f = false ->
  scan deflateRawSync (f :: rest) 0 = Ok es ->
  exists es', es = mkEntry f (data f) :: es'.
Proof.
  intros Hc Hscan. simpl in Hscan. unfold candidate in Hscan. rewrite Hc in Hscan.
  destruct (entryFits _ 0); [|discriminate].
  destruct (scan deflateRawSync rest _) as [es'|]; [|discriminate].
  injection Hscan as <-. eexists. reflexivity.
Qed.

Lemma archive_first e es :
  exists rest, archive (e :: es) = (localHeaderOf e ++ finalData e) ++ rest.
Proof.
  unfold archive, localSection. cbn [map concat].
  eexists. rewrite <- !app_assoc. reflexivity.
Qed.

(** X8: whatever calls of [addFile] follow the first one,
    [addFile('mimetype', 'application/epub+zip', false)], an archive that
    [createZipBuffer] returns for the resulting list begins with the same 58
    octets: the local header of the stored mimetype entry (method 0, CRC-32
    0x2CAB616F, both sizes 20), its name and its payload. *)
Theorem epub_begins_with_mimetype
    (deflateRawSync : Buffer -> option Buffer) (calls : list AddFileArgs)
    (st st' : Cache) (out : Buffer) :
  cache_ok st ->
  createZipBuffer deflateRawSync
    (addFiles calls
       (addFile [] (literal "mimetype"%string)
          (Text (literal "application/epub+zip"%string)) (Some false))) st
  = (Ok out, st') ->
  subarray out 0 58
  = Layout.localHeader 0 0x2CAB616F 20 20 (literal "mimetype"%string)
    ++ literal "application/epub+zip"%string.
Proof.
  intros Hst Hret.
  change (addFile [] (literal "mimetype"%string)
            (Text (literal "application/epub+zip"%string)) (Some false))
    with [mimetype] in Hret.
  destruct (addFiles_head calls mimetype []) as [rest Hfiles].
  rewrite Hfiles in Hret.
  destruct (createZipBuffer_returns _ _ _ _ _ Hst Hret) as (es & Hscan & _ & ->).
  destruct (scan_first deflateRawSync mimetype rest es eq_refl Hscan) as [es' ->].
  destruct (archive_first (mkEntry mimetype (data mimetype)) es') as [tl ->].
  replace (localHeaderOf (mkEntry mimetype (data mimetype))
           ++ finalData (mkEntry mimetype (data mimetype)))
    with (Layout.localHeader 0 0x2CAB616F 20 20 (literal "mimetype"%string)
          ++ literal "application/epub+zip"%string)
    by (vm_compute; reflexivity).
  set (h := Layout.localHeader 0 0x2CAB616F 20 20 (literal "mimetype"%string)
            ++ literal "application/epub+zip"%string).
  change 58 with (len h).
  exact (subarray_middle [] h tl 0 eq_refl).
Qed.

Lemma epub_begins_with_mimetype_witness :
  subarray exampleArchive 0 58
  = Layout.localHeader 0 0x2CAB616F 20 20 (literal "mimetype"%string)
    ++ literal "application/epub+zip"%string.
Proof.
  apply (epub_begins_with_mimetype exampleDeflate
           [(literal "OEBPS/content.opf"%string, Text (literal "<package/>"%string), None)]
           None (Some crc32Table_build) exampleArchive).
  - left. reflexivity.
  - vm_compute. reflexivity.
Defined.

(** X9: the cache of the CRC table does not show in the result: from any
    two states the cache can be in, [createZipBuffer] returns or throws the
    same; it leaves the cache in one of these states, and a second call on
    the same files gives the result of the first. *)
Theorem cache_transparent
    (deflateRawSync : Buffer -> option Buffer) (files : list File) (st1 st2 : Cache) :
  cache_ok st1 -> cache_ok st2 ->
  fst (createZipBuffer deflateRawSync files st1)
  = fst (createZipBuffer deflateRawSync files st2)
  /\ cache_ok (snd (createZipBuffer deflateRawSync files st1))
  /\ fst (createZipBuffer deflateRawSync files
            (snd (createZipBuffer deflateRawSync files st1)))
     = fst (createZipBuffer deflateRawSync files st1).
Proof.
  intros H1 H2.
  destruct (createZipBuffer_eval deflateRawSync files st1 H1) as (s1 & Hs1 & E1).
  destruct (createZipBuffer_eval deflateRawSync files st2 H2) as (s2 & Hs2 & E2).
  rewrite E1, E2. cbn [fst snd].
  destruct (createZipBuffer_eval deflateRawSync files s1 Hs1) as (s3 & Hs3 & E3).
  rewrite E3. cbn [fst]. split; [reflexivity | split; [exact Hs1 | reflexivity]].
Qed.

Lemma cache_transparent_witness :
  fst (createZipBuffer exampleDeflate exampleFiles None)
  = fst (createZipBuffer exampleDeflate exampleFiles (Some crc32Table_build))
  /\ cache_ok (snd (createZipBuffer exampleDeflate exampleFiles None))
  /\ fst (createZipBuffer exampleDeflate exampleFiles
            (snd (createZipBuffer exampleDeflate exampleFiles None)))
     = fst (createZipBuffer exampleDeflate exampleFiles None).
Proof.
  apply (cache_transparent exampleDeflate exampleFiles None (Some crc32Table_build)).
  - left. reflexivity.
  - right. reflexivity.
Defined.

(** X10: no write of [createZipBuffer] falls outside the header it has
    just allocated: the offset check of the write methods never fails. *)
Theorem writes_stay_in_bounds
    (deflateRawSync : Buffer -> option Buffer) (files : list File) (st : Cache) :
  cache_ok st ->
  fst (createZipBuffer deflateRawSync files st) <> Throw OffsetOutOfRange.
Proof.
  intros Hst.
  destruct (createZipBuffer_eval deflateRawSync files st Hst) as (st' & _ & Heq).
  rewrite Heq. cbn [fst]. unfold outcome.
  destruct (scan deflateRawSync files 0) as [es|x] eqn:Hscan.
  - destruct (eocdFits es); discriminate.
  - destruct (scan_throws _ _ _ _ Hscan) as [->|[-> _]]; discriminate.
Qed.

Lemma writes_stay_in_bounds_witness :
  fst (createZipBuffer failingDeflate exampleFiles None) <> Throw OffsetOutOfRange.
Proof.
  apply (writes_stay_in_bounds failingDeflate exampleFiles None).
  left. reflexivity.
Defined.

Lemma scan_forallb deflateRawSync files : forall offset es,
  scan deflateRawSync files offset = Ok es ->
  forallb (fun e => (len (data (e_file e)) <=? 0xFFFFFFFF)
                    && (len (nameBytes e) <=? 0xFFFF)) es = true.
Proof.
  induction files as [|f files IH]; intros offset es H; simpl in H.
  - injection H as <-. reflexivity.
  - destruct (candidate deflateRawSync f) as [c|]; [|discriminate].
    destruct (entryFits (mkEntry f c) offset) eqn:Hfit; [|discriminate].
    destruct (scan deflateRawSync files _) as [es'|] eqn:E; [|discriminate].
    injection H as <-. cbn [forallb]. rewrite (IH _ _ E), andb_true_r.
    unfold entryFits in Hfit. apply andb_true_iff in Hfit. exact (proj1 Hfit).
Qed.

(** X11: [createZipBuffer] returns an archive exactly when no call of
    deflate throws and every field is in range: payloads of at most
    0xFFFFFFFF octets, names of at most 0xFFFF octets, at most 0xFFFF files,
    and a central directory whose size and offset are at most 0xFFFFFFFF. *)
Theorem returns_iff_fits
    (deflateRawSync : Buffer -> option Buffer) (files : list File) (st : Cache) :
  cache_ok st ->
  (exists out st', createZipBuffer deflateRawSync files st = (Ok out, st'))
  <-> (exists es, entriesOf deflateRawSync files = Some es /\ fits es = true).
Proof.
  intros Hst. split.
  - intros (out & st' & Hret).
    destruct (createZipBuffer_returns _ _ _ _ _ Hst Hret) as (es & Hscan & Hfit & _).
    exists es. split; [exact (scan_entriesOf _ _ _ _ Hscan)|].
    unfold fits. rewrite (scan_forallb _ _ _ _ Hscan), Hfit. reflexivity.
  - intros (es & Hes & Hfit).
    unfold fits in Hfit. apply andb_true_iff in Hfit. destruct Hfit as [Hall Hfit].
    destruct (createZipBuffer_eval deflateRawSync files st Hst) as (st' & _ & Heq).
    exists (archive es), st'. rewrite Heq. unfold outcome.
    rewrite (scan_complete deflateRawSync files 0 es Hes Hall), Hfit; [reflexivity|].
    unfold eocdFits in Hfit. apply andb_true_iff in Hfit. destruct Hfit as [_ Hl].
    apply Z.leb_le in Hl. lia.
Qed.

Lemma returns_iff_fits_witness :
  exists out st', createZipBuffer exampleDeflate exampleFiles None = (Ok out, st').
Proof.
  apply (proj2 (returns_iff_fits exampleDeflate exampleFiles None
                  (or_introl eq_refl))).
  exists exampleEntries. split.
  - reflexivity.
  - vm_compute. reflexivity.
Defined.

(** X12: a file with an empty payload is never stored deflated, whatever
    its flag and whatever deflate answers: in both headers the method is 0
    and the CRC-32, the compressed size and the uncompressed size are 0. *)
Theorem empty_payload_stored
    (deflateRawSync : Buffer -> option Buffer) (files : list File) (st st' : Cache)
    (out : Buffer) (es : list Entry) (i : nat) (e : Entry) :
  cache_ok st ->
  createZipBuffer deflateRawSync files st = (Ok out, st') ->
  entriesOf deflateRawSync files = Some es ->
  nth_error es i = Some e ->
  data (e_file e) = [] ->
  let lo := localOffset es i in
  let co := centralOffset es i in
  readUInt16LE out (lo + 8) = 0 /\ readUInt16LE out (co + 10) = 0
  /\ readUInt32LE out (lo + 14) = 0 /\ readUInt32LE out (co + 16) = 0
  /\ readUInt32LE out (lo + 18) = 0 /\ readUInt32LE out (co + 20) = 0
  /\ readUInt32LE out (lo + 22) = 0 /\ readUInt32LE out (co + 24) = 0.
Proof.
  intros Hst Hret Hes Hi Hd. cbv zeta.
  destruct (returned_entry_written _ _ _ _ _ _ _ _ Hst Hret Hes Hi)
    as ((_ & L8 & L14 & L18 & L22 & _) & (_ & C10 & C16 & C20 & C24 & _)).
  rewrite L8, L14, L18, L22, C10, C16, C20, C24.
  assert (Hu : useCompression e = false).
  { unfold useCompression. rewrite Hd.
    destruct (Z.ltb_spec (len (e_compressed e)) (len (@nil Z))) as [H|_];
      [pose proof (len_nonneg (e_compressed e)); unfold len in H at 2; simpl in H; lia|].
    apply andb_false_r. }
  unfold method, finalData. rewrite Hu, Hd.
  repeat split.
Qed.

Lemma empty_payload_stored_witness :
  createZipBuffer runDeflate emptyFiles None = (Ok emptyArchive, Some crc32Table_build)
  /\ readUInt16LE emptyArchive (localOffset emptyEntries 1 + 8) = 0.
Proof.
  assert (H0 : cache_ok None) by (left; reflexivity).
  assert (H1 : createZipBuffer runDeflate emptyFiles None
               = (Ok emptyArchive, Some crc32Table_build))
    by (vm_compute; reflexivity).
  split; [exact H1|].
  exact (proj1 (empty_payload_stored runDeflate emptyFiles None _ emptyArchive
                  emptyEntries 1 _ H0 H1 eq_refl eq_refl eq_refl)).
Defined.

Lemma entriesOf_files deflateRawSync files : forall es,
  entriesOf deflateRawSync files = Some es -> map e_file es = files.
Proof.
  induction files as [|f files IH]; intros es H; simpl in H.
  - injection H as <-. reflexivity.
  - destruct (candidate deflateRawSync f) as [c|]; [|discriminate].
    destruct (entriesOf deflateRawSync files) as [es'|]; [|discriminate].
    injection H as <-. simpl. rewrite (IH es' eq_refl). reflexivity.
Qed.

Lemma len_archive es : len (archive es) = localTotal es + centralTotal es + 22.
Proof.
  unfold archive. rewrite !len_app, len_localSection, len_centralSection.
  unfold Layout.eocd, le32, le16, len. cbn [app length]. lia.
Qed.

Lemma totals_le_stored es :
  localTotal es + centralTotal es + 22 <= storedLength (map e_file es)
  /\ (forallb (fun f => negb (compress f)) (map e_file es) = true ->
      localTotal es + centralTotal es + 22 = storedLength (map e_file es)).
Proof.
  unfold storedLength, localTotal, centralTotal.
  induction es as [|e es [IH1 IH2]]; [split; reflexivity|].
  cbn [map sumZ forallb]. unfold localSize at 1 3, centralSize at 1 3.
  fold (nameBytes e). pose proof (len_finalData_le e) as Hle. split; [lia|].
  intros H. apply andb_true_iff in H. destruct H as [Hc Hs]. specialize (IH2 Hs).
  assert (Hf : finalData e = data (e_file e)).
  { unfold finalData, useCompression.
    destruct (compress (e_file e)); [discriminate | reflexivity]. }
  rewrite Hf. lia.
Qed.

(** X13: choosing the deflated candidate never makes the archive longer:
    its length is at most 22 plus, per file, 76, twice the name and the
    payload, and it is exactly that when no file has [compress = true]. *)
Theorem never_longer_than_stored
    (deflateRawSync : Buffer -> option Buffer) (files : list File) (st st' : Cache)
    (out : Buffer) :
  cache_ok st ->
  createZipBuffer deflateRawSync files st = (Ok out, st') ->
  len out <= storedLength files
  /\ (forallb (fun f => negb (compress f)) files = true -> len out = storedLength files).
Proof.
  intros Hst Hret.
  destruct (createZipBuffer_returns _ _ _ _ _ Hst Hret) as (es & Hscan & _ & ->).
  rewrite <- (entriesOf_files _ _ _ (scan_entriesOf _ _ _ _ Hscan)), len_archive.
  apply totals_le_stored.
Qed.

Lemma never_longer_than_stored_witness :
  createZipBuffer exampleDeflate exampleFiles None
  = (Ok exampleArchive, Some crc32Table_build)
  /\ len exampleArchive <= storedLength exampleFiles.
Proof.
  assert (H0 : cache_ok None) by (left; reflexivity).
  assert (H1 : createZipBuffer exampleDeflate exampleFiles None
               = (Ok exampleArchive, Some crc32Table_build))
    by (vm_compute; reflexivity).
  split; [exact H1|].
  exact (proj1 (never_longer_than_stored exampleDeflate exampleFiles None _
                  exampleArchive H0 H1)).
Defined.

(** X14: following the central directory header of the i-th entry to its
    local header and inflating the stored octets when the method is 8 gives
    back the payload of the i-th file, whose length and [crc32] are the ones
    the central directory header announces; [inflate] has to undo deflate on
    the candidate of that file. *)
Theorem extract_recovers_payload
    (deflateRawSync : Buffer -> option Buffer) (inflate : Buffer -> Buffer)
    (files : list File) (st st' : Cache)
    (out : Buffer) (es : list Entry) (i : nat) (e : Entry) :
  cache_ok st ->
  createZipBuffer deflateRawSync files st = (Ok out, st') ->
  entriesOf deflateRawSync files = Some es ->
  nth_error es i = Some e ->
  (compress (e_file e) = true -> inflate (e_compressed e) = data (e_file e)) ->
  let co := centralOffset es i in
  nth_error files i = Some (e_file e)
  /\ extract inflate out co = data (e_file e)
  /\ len (extract inflate out co) = readUInt32LE out (co + 24)
  /\ fst (crc32 (extract inflate out co) st) = readUInt32LE out (co + 16).
Proof.
  intros Hst Hret Hes Hi Hinf. cbv zeta.
  destruct (returned_entry_written _ _ _ _ _ _ _ _ Hst Hret Hes Hi)
    as ((_ & L8 & _ & L18 & _ & L26 & _ & Ld) & (_ & _ & C16 & _ & C24 & _ & C42 & _)).
  destruct (entriesOf_nth _ _ _ _ _ Hes Hi) as [Hf _].
  assert (Hx : extract inflate out (centralOffset es i) = data (e_file e)).
  { unfold extract. rewrite C42, L26, L18, L8, Ld.
    unfold method, finalData. destruct (useCompression e) eqn:Hu; cbn [Z.eqb Pos.eqb].
    - apply Hinf. unfold useCompression in Hu. apply andb_true_iff in Hu. exact (proj1 Hu).
    - reflexivity. }
  rewrite Hx, C24, C16, (crc32_value _ st Hst).
  split; [exact Hf | repeat split].
Qed.

Lemma extract_recovers_payload_witness :
  createZipBuffer runDeflate runFiles None = (Ok runArchive, Some crc32Table_build)
  /\ extract runInflate runArchive (centralOffset runEntries 1) = [7; 7; 7; 7; 7].
Proof.
  assert (H0 : cache_ok None) by (left; reflexivity).
  assert (H1 : createZipBuffer runDeflate runFiles None
               = (Ok runArchive, Some crc32Table_build))
    by (vm_compute; reflexivity).
  split; [exact H1|].
  exact (proj1 (proj2 (extract_recovers_payload runDeflate runInflate runFiles None _
                         runArchive runEntries 1 _ H0 H1 eq_refl eq_refl
                         (fun _ => eq_refl)))).
Defined.

(** ** One changed octet changes the checksum *)

Lemma distinct_NoDup l : distinct l = true -> NoDup l.
Proof.
  induction l as [|x t IH]; intros H; [constructor|].
  simpl in H. apply andb_true_iff in H. destruct H as [Hx Ht].
  constructor; [|exact (IH Ht)].
  intros Hin. apply negb_true_iff in Hx.
  assert (He : existsb (Z.eqb x) t = true)
    by (apply existsb_exists; exists x; split; [exact Hin | apply Z.eqb_refl]).
  rewrite He in Hx. discriminate.
Qed.

Lemma table_top_inj i j :
  (i < 256)%nat -> (j < 256)%nat ->
  Z.shiftr (nth i Ref.table 0) 24 = Z.shiftr (nth j Ref.table 0) 24 -> i = j.
Proof.
  intros Hi Hj H.
  assert (Hnd : NoDup (map (fun t => Z.shiftr t 24) Ref.table))
    by (apply distinct_NoDup; vm_compute; reflexivity).
  assert (Hlen : length (map (fun t => Z.shiftr t 24) Ref.table) = 256%nat)
    by reflexivity.
  rewrite (NoDup_nth _ 0) in Hnd. apply Hnd; rewrite ?Hlen; try assumption.
  pose proof (map_nth (fun t => Z.shiftr t 24) Ref.table 0 i) as Mi.
  pose proof (map_nth (fun t => Z.shiftr t 24) Ref.table 0 j) as Mj.
  cbv beta in Mi, Mj. change (Z.shiftr 0 24) with 0 in Mi, Mj.
  rewrite Mi, Mj. exact H.
Qed.

Lemma lxor_cancel a x y : Z.lxor a x = Z.lxor a y -> x = y.
Proof.
  intros H.
  rewrite <- (Z.lxor_0_l x), <- (Z.lxor_0_l y), <- (Z.lxor_nilpotent a).
  rewrite !Z.lxor_assoc, H. reflexivity.
Qed.

Lemma low_octet_lxor a b :
  Z.land (Z.lxor a b) 255 = Z.lxor (Z.land a 255) (Z.land b 255).
Proof.
  apply Z.bits_inj'. intros n Hn.
  rewrite Z.lxor_spec, !Z.land_spec, Z.lxor_spec.
  destruct (Z.testbit 255 n); rewrite ?andb_true_r, ?andb_false_r; reflexivity.
Qed.

Lemma split_octet a : a = 256 * Z.shiftr a 8 + Z.land a 255.
Proof.
  rewrite Z.shiftr_div_pow2 by lia. change 255 with (Z.ones 8).
  rewrite Z.land_ones by lia. change (2 ^ 8) with 256.
  apply Z.div_mod. lia.
Qed.

Lemma tableIndex_lt acc byte : (tableIndex acc byte < 256)%nat.
Proof. unfold tableIndex. pose proof (low_octet_range (Z.lxor acc byte)). lia. Qed.

Lemma update_top acc byte :
  0 <= acc < 2 ^ 32 ->
  Z.shiftr (Ref.update acc byte) 24
  = Z.shiftr (nth (tableIndex acc byte) Ref.table 0) 24.
Proof.
  intros Ha. unfold Ref.update. fold (tableIndex acc byte).
  rewrite Z.shiftr_lxor, Z.shiftr_shiftr by lia.
  change (8 + 24) with 32.
  rewrite (Z.shiftr_div_pow2 acc 32) by lia.
  rewrite Z.div_small by lia. apply Z.lxor_0_l.
Qed.

Lemma update_index acc acc' byte byte' :
  0 <= acc < 2 ^ 32 -> 0 <= acc' < 2 ^ 32 ->
  Ref.update acc byte = Ref.update acc' byte' ->
  Z.land (Z.lxor acc byte) 255 = Z.land (Z.lxor acc' byte') 255.
Proof.
  intros Ha Ha' H.
  assert (Ht : Z.shiftr (Ref.update acc byte) 24 = Z.shiftr (Ref.update acc' byte') 24)
    by (rewrite H; reflexivity).
  rewrite !update_top in Ht by assumption.
  apply table_top_inj in Ht; try apply tableIndex_lt.
  unfold tableIndex in Ht.
  pose proof (low_octet_range (Z.lxor acc byte)).
  pose proof (low_octet_range (Z.lxor acc' byte')). lia.
Qed.

Lemma update_inj_acc acc acc' byte :
  0 <= acc < 2 ^ 32 -> 0 <= acc' < 2 ^ 32 ->
  Ref.update acc byte = Ref.update acc' byte -> acc = acc'.
Proof.
  intros Ha Ha' H.
  pose proof (update_index _ _ _ _ Ha Ha' H) as Hidx.
  unfold Ref.update in H. rewrite Hidx in H.
  rewrite (Z.lxor_comm (Z.shiftr acc 8)), (Z.lxor_comm (Z.shiftr acc' 8)) in H.
  apply lxor_cancel in H.
  rewrite !low_octet_lxor in Hidx.
  rewrite (Z.lxor_comm (Z.land acc 255)), (Z.lxor_comm (Z.land acc' 255)) in Hidx.
  apply lxor_cancel in Hidx.
  rewrite (split_octet acc), (split_octet acc'), H, Hidx. reflexivity.
Qed.

Lemma update_inj_byte acc byte byte' :
  0 <= acc < 2 ^ 32 ->
  Ref.update acc byte = Ref.update acc byte' ->
  Z.land byte 255 = Z.land byte' 255.
Proof.
  intros Ha H.
  pose proof (update_index _ _ _ _ Ha Ha H) as Hidx.
  rewrite !low_octet_lxor in Hidx. exact (lxor_cancel _ _ _ Hidx).
Qed.

Lemma ref_loop_inj post : forall acc acc',
  0 <= acc < 2 ^ 32 -> 0 <= acc' < 2 ^ 32 ->
  fold_left Ref.update post acc = fold_left Ref.update post acc' -> acc = acc'.
Proof.
  induction post as [|b post IH]; intros acc acc' Ha Ha' H; simpl in H; [exact H|].
  apply IH in H; [|apply update_range; assumption..].
  exact (update_inj_acc _ _ _ Ha Ha' H).
Qed.

Lemma ref_crc32_byte_change pre post b b' :
  Ref.crc32 (pre ++ b :: post) = Ref.crc32 (pre ++ b' :: post) ->
  Z.land b 255 = Z.land b' 255.
Proof.
  unfold Ref.crc32. rewrite !fold_left_app. cbn [fold_left].
  set (acc := fold_left Ref.update pre 4294967295).
  assert (Ha : 0 <= acc < 2 ^ 32) by (apply ref_loop_range; lia).
  pose proof (update_range acc b Ha) as Hb.
  pose proof (update_range acc b' Ha) as Hb'.
  pose proof (ref_loop_range post _ Hb) as Hp.
  pose proof (ref_loop_range post _ Hb') as Hp'.
  intros H.
  rewrite !Z.mod_small in H by (apply lxor_range; [assumption | lia]).
  rewrite (Z.lxor_comm _ 4294967295), (Z.lxor_comm _ 4294967295) in H.
  apply lxor_cancel in H.
  apply ref_loop_inj in H; try assumption.
  exact (update_inj_byte _ _ _ Ha H).
Qed.

(** X15: [crc32] tells apart two buffers that differ in exactly one octet. *)
Theorem crc32_detects_byte_change (pre post : Buffer) (b b' : Z) (st : Cache) :
  cache_ok st ->
  0 <= b < 256 -> 0 <= b' < 256 -> b <> b' ->
  fst (crc32 (pre ++ b :: post) st) <> fst (crc32 (pre ++ b' :: post) st).
Proof.
  intros Hst Hb Hb' Hne H.
  rewrite !(crc32_value _ st Hst) in H. cbn [fst] in H.
  apply ref_crc32_byte_change in H.
  change 255 with (Z.ones 8) in H. rewrite !Z.land_ones in H by lia.
  rewrite !Z.mod_small in H by (change (2 ^ 8) with 256; lia).
  exact (Hne H).
Qed.

Lemma crc32_detects_byte_change_witness :
  fst (crc32 (literal "abce"%string) None) <> fst (crc32 (literal "abde"%string) None).
Proof.
  apply (crc32_detects_byte_change (literal "ab"%string) (literal "e"%string) 99 100 None).
  - left. reflexivity.
  - lia.
  - lia.
  - lia.
Defined.

(** ** Appending a file *)

Lemma entriesOf_app deflateRawSync files g : forall es2,
  entriesOf deflateRawSync (files ++ [g]) = Some es2 ->
  exists es1 e, entriesOf deflateRawSync files = Some es1 /\ es2 = es1 ++ [e].
Proof.
  induction files as [|f files IH]; intros es2 H; simpl in H.
  - destruct (candidate deflateRawSync g) as [c|]; [|discriminate].
    injection H as <-. exists [], (mkEntry g c). split; reflexivity.
  - destruct (candidate deflateRawSync f) as [c|] eqn:Hc; [|discriminate].
    destruct (entriesOf deflateRawSync (files ++ [g])) as [es|] eqn:E; [|discriminate].
    injection H as <-. destruct (IH es eq_refl) as (es1 & e & H1 & ->).
    exists (mkEntry f c :: es1), e. simpl. rewrite Hc, H1. split; reflexivity.
Qed.

Lemma localSection_app es1 es2 :
  localSection (es1 ++ es2) = localSection es1 ++ localSection es2.
Proof. unfold localSection. rewrite map_app, concat_app. reflexivity. Qed.

Lemma subarray_prefix h rest : subarray (h ++ rest) 0 (len h) = h.
Proof. exact (subarray_middle [] h rest 0 eq_refl). Qed.

(** X16: one more file at the end of the list leaves the local part of
    the archive as it is: the octets before the central directory of the
    archive for [files] (its central-directory-offset field says how many;
    the rest is the central directory and the 22-octet end record) are the
    first octets of the archive for [files ++ [g]]. *)
Theorem append_keeps_local_part
    (deflateRawSync : Buffer -> option Buffer) (files : list File) (g : File)
    (st1 st1' st2 st2' : Cache) (out1 out2 : Buffer) :
  cache_ok st1 -> cache_ok st2 ->
  createZipBuffer deflateRawSync files st1 = (Ok out1, st1') ->
  createZipBuffer deflateRawSync (files ++ [g]) st2 = (Ok out2, st2') ->
  let n := readUInt32LE out1 (len out1 - 22 + 16) in
  subarray out2 0 n = subarray out1 0 n
  /\ n = len out1 - 22 - readUInt32LE out1 (len out1 - 22 + 12).
Proof.
  intros H1 H2 R1 R2.
  destruct (createZipBuffer_returns _ _ _ _ _ H1 R1) as (es1 & S1 & F1 & ->).
  destruct (createZipBuffer_returns _ _ _ _ _ H2 R2) as (es2 & S2 & _ & ->).
  pose proof (scan_entriesOf _ _ _ _ S1) as E1.
  destruct (entriesOf_app _ _ _ _ (scan_entriesOf _ _ _ _ S2)) as (es & e & E & ->).
  rewrite E1 in E. injection E as <-.
  unfold eocdFits in F1.
  apply andb_true_iff in F1. destruct F1 as [F1 Hl].
  apply andb_true_iff in F1. destruct F1 as [Hn Hc].
  apply Z.leb_le in Hn, Hc, Hl.
  pose proof (len_nonneg es1) as Hn0.
  pose proof (localTotal_nonneg es1) as Hl0.
  assert (Hc0 : 0 <= centralTotal es1)
    by (rewrite <- (len_centralSection es1 0); apply len_nonneg).
  destruct (eocd_fields (len es1) (centralTotal es1) (localTotal es1))
    as (E & _ & _ & _ & _ & _ & E12 & E16 & _); try lia.
  assert (Hn1 : readUInt32LE (archive es1) (len (archive es1) - 22 + 16) = localTotal es1
                /\ readUInt32LE (archive es1) (len (archive es1) - 22 + 12) = centralTotal es1
                /\ len (archive es1) = localTotal es1 + centralTotal es1 + 22).
  { destruct (archive_eocd_at es1) as (before & Hb & Ha). rewrite Ha.
    rewrite len_app, E.
    replace (len before + 22 - 22 + 16) with (len before + 16) by lia.
    replace (len before + 22 - 22 + 12) with (len before + 12) by lia.
    rewrite !readUInt32LE_shift by lia. repeat split; try assumption. lia. }
  destruct Hn1 as (N16 & N12 & Nlen).
  cbv zeta. rewrite N16, N12, Nlen. split; [|lia].
  rewrite <- (len_localSection es1).
  unfold archive. rewrite localSection_app, <- !app_assoc, !subarray_prefix.
  reflexivity.
Qed.

Lemma append_keeps_local_part_witness :
  subarray exampleArchive 0 58 = subarray mimetypeArchive 0 58.
Proof.
  assert (H0 : cache_ok None) by (left; reflexivity).
  assert (H1 : createZipBuffer exampleDeflate [mimetype] None
               = (Ok mimetypeArchive, Some crc32Table_build))
    by (vm_compute; reflexivity).
  assert (H2 : createZipBuffer exampleDeflate ([mimetype] ++ [opf]) None
               = (Ok exampleArchive, Some crc32Table_build))
    by (vm_compute; reflexivity).
  exact (proj1 (append_keeps_local_part exampleDeflate [mimetype] opf None _ None _
                  mimetypeArchive exampleArchive H0 H0 H1 H2)).
Defined.
